(** * The order repository of chi-api over a model of its Redis client

    The repository ([package order], [RedisRepo]) stores every order as the
    JSON text of [model.Order] under the string key [order:<id>] and keeps
    the set [orders] of those keys as its only index.  Every method is a
    short sequence of go-redis commands; what a method returns depends only
    on the [Err()] (and, for reads, the [Val()]) of the commands it issues.

    The development has four layers:
    - [Go]: the error values the code builds and tests ([errors.New],
      [fmt.Errorf] with [%w], [errors.Is]);
    - [redis]: the server's key space, the replies of the eight commands the
      repository uses, and the typed commands of go-redis v9 that decode
      them;
    - the repository itself, one definition per Go function, generic in the
      [model] package and in [encoding/json];
    - [model]: the Order entity and its codec, absent from the sources and
      modelled from the specification. *)

From Stdlib Require Import ZArith NArith Lia String Ascii Decimal DecimalString
  DecimalPos DecimalN.
From stdpp Require Import gmap strings list fin_maps.

Local Open Scope string_scope.

(* ===================================================================== *)
(** * Go errors *)
(* ===================================================================== *)

Module Go.

(** The error values that occur in the repository.  [wrapError] is what
    [fmt.Errorf("<msg>: %w", err)] builds. *)
Inductive error : Type :=
| RedisError (msg : string)          (* proto.RedisError; redis.Nil is one *)
| NetError (msg : string)            (* transport failure, timeout, cancelled context *)
| JsonError (msg : string)           (* encoding/json *)
| errorString (msg : string)         (* errors.New(msg) *)
| wrapError (msg : string) (err : error).

#[global] Instance error_eq_dec : EqDecision error.
Proof. solve_decision. Defined.

(** [errors.Is(err, target)]: [err] or an error it wraps equals [target]. *)
Fixpoint chain_has (target err : error) : bool :=
  if decide (err = target) then true
  else match err with
       | wrapError _ inner => chain_has target inner
       | _ => false
       end.

Definition errors_Is (err : option error) (target : error) : bool :=
  match err with
  | None => false
  | Some e => chain_has target e
  end.

(** A fallible result: Go's [(value, error)] pair with exactly one side
    meaningful. *)
Inductive result (A : Type) : Type :=
| Ok (a : A)
| Fail (err : error).
#[global] Arguments Ok {A} a.
#[global] Arguments Fail {A} err.

(** What a call does: it returns, or it panics. *)
Inductive outcome (A : Type) : Type :=
| Return (a : A)
| Panic (msg : string).
#[global] Arguments Return {A} a.
#[global] Arguments Panic {A} msg.

(** [int64(x)] for an [x : uint64]: reinterpretation of the 64 bits. *)
Definition int64_of_uint64 (x : N) : Z :=
  let z := (Z.of_N x mod 2 ^ 64)%Z in
  if (z <? 2 ^ 63)%Z then z else (z - 2 ^ 64)%Z.

(** [%d] of an unsigned integer. *)
Definition decimal (n : N) : string := NilZero.string_of_uint (N.to_uint n).

End Go.
Export Go.

(* ===================================================================== *)
(** * Redis: server, replies, go-redis commands *)
(* ===================================================================== *)

Module redis.

(** ** The server

    The key space is split by type: string keys and set keys.  The
    repository reads and writes strings only under [order:<id>] and sets
    only under [orders], and the two never coincide (lemma
    [OrderIdKey_not_index]), so no command of the repository meets a key of
    the wrong type.  [Iterate] is the server's enumeration of a set for
    SSCAN: from the members, a cursor and a count it gives one page and the
    next cursor.  Redis leaves it unspecified beyond that; nothing is
    assumed about it here. *)
Record Server : Type := {
  Strings : gmap string string;
  Sets : gmap string (gset string);
  Iterate : gset string -> N -> Z -> list string * N
}.

Definition with_Strings (m : gmap string string) (s : Server) : Server :=
  {| Strings := m; Sets := Sets s; Iterate := Iterate s |}.

Definition with_Sets (m : gmap string (gset string)) (s : Server) : Server :=
  {| Strings := Strings s; Sets := m; Iterate := Iterate s |}.

Inductive command : Type :=
| GET (key : string)
| SETNX (key value : string)
| SET_XX (key value : string)
| DEL (key : string)
| MGET (keys : list string)
| SADD (key member : string)
| SREM (key member : string)
| SSCAN (key : string) (cursor : N) (count : Z).

Inductive reply : Type :=
| Null
| Integer (n : Z)
| Status (s : string)
| Bulk (s : string)
| Values (xs : list (option string))
| Page (cursor : N) (members : list string).

(** One command executed by the server, as the Redis command reference
    describes it.  GET answers the value or null.  SETNX answers the
    integer 1 when it set the key and 0 when the key exists.  SET with XX
    answers OK when it replaced the value and null when the key is absent.
    DEL answers the number of keys it removed.  MGET answers one value or
    null per key.  SADD and SREM answer the number of members added or
    removed; a set that loses its last member disappears.  SSCAN answers
    one page and the next cursor, and cursor 0 with no member for a key
    that does not exist. *)
Definition serve (cmd : command) (s : Server) : reply * Server :=
  match cmd with
  | GET k =>
      (match Strings s !! k with Some v => Bulk v | None => Null end, s)
  | SETNX k v =>
      match Strings s !! k with
      | Some _ => (Integer 0, s)
      | None => (Integer 1, with_Strings (<[k := v]> (Strings s)) s)
      end
  | SET_XX k v =>
      match Strings s !! k with
      | Some _ => (Status "OK", with_Strings (<[k := v]> (Strings s)) s)
      | None => (Null, s)
      end
  | DEL k =>
      match Strings s !! k with
      | Some _ => (Integer 1, with_Strings (delete k (Strings s)) s)
      | None => (Integer 0, s)
      end
  | MGET ks => (Values (map (fun k => Strings s !! k) ks), s)
  | SADD k m =>
      let old := default ∅ (Sets s !! k) in
      if decide (m ∈ old) then (Integer 0, s)
      else (Integer 1, with_Sets (<[k := {[m]} ∪ old]> (Sets s)) s)
  | SREM k m =>
      match Sets s !! k with
      | None => (Integer 0, s)
      | Some old =>
          if decide (m ∈ old) then
            let new := old ∖ {[m]} in
            (Integer 1,
             with_Sets (if decide (new = ∅) then delete k (Sets s)
                        else <[k := new]> (Sets s)) s)
          else (Integer 0, s)
      end
  | SSCAN k cursor count =>
      match Sets s !! k with
      | None => (Page 0 [], s)
      | Some members =>
          let '(page, next) := Iterate s members cursor count in
          (Page next page, s)
      end
  end.

(** ** The connection

    [faults] scripts the coming round trips: [Some msg] is a round trip that
    fails before the server sees the command (the client reports a non-nil
    error that is not [redis.Nil]); [None], or no entry at all, is a round
    trip that reaches the server. *)
Record Conn : Type := {
  server : Server;
  faults : list (option string)
}.

Definition Nil : error := RedisError "redis: nil".

(** State passing over the connection. *)
Definition IO (A : Type) : Type := Conn -> A * Conn.

Definition ret {A} (a : A) : IO A := fun c => (a, c).

Definition bind {A B} (m : IO A) (k : A -> IO B) : IO B :=
  fun c => let '(a, c') := m c in k a c'.

Definition roundTrip (cmd : command) : IO (result reply) :=
  fun c =>
    match faults c with
    | Some msg :: rest =>
        (Fail (NetError msg), {| server := server c; faults := rest |})
    | None :: rest =>
        let '(r, s') := serve cmd (server c) in
        (Ok r, {| server := s'; faults := rest |})
    | [] =>
        let '(r, s') := serve cmd (server c) in
        (Ok r, {| server := s'; faults := [] |})
    end.

(** ** Typed commands

    A [*XxxCmd] of go-redis: the decoded value and the error. *)
Record Cmd (A : Type) : Type := { Val : A; Err : option error }.
#[global] Arguments Val {A} _.
#[global] Arguments Err {A} _.

Definition cmdOk {A} (a : A) : Cmd A := {| Val := a; Err := None |}.
Definition cmdErr {A} (zero : A) (e : error) : Cmd A :=
  {| Val := zero; Err := Some e |}.

Definition unexpected : error := RedisError "redis: can't parse reply".

(** [BoolCmd.readReply]: a null reply is turned into [false] with a nil
    error.  (go-redis: "SET key value NX returns nil when key already
    exists. But SETNX key value returns bool (0/1). So convert nil to
    bool.") *)
Definition readBool (r : reply) : Cmd bool :=
  match r with
  | Null => cmdOk false
  | Integer n => cmdOk (n =? 1)%Z
  | Status s | Bulk s =>
      cmdOk (bool_decide (s = "OK") || bool_decide (s = "1")
             || bool_decide (s = "true"))
  | _ => cmdErr false unexpected
  end.

(** [IntCmd.readReply]. *)
Definition readInt (r : reply) : Cmd Z :=
  match r with
  | Integer n => cmdOk n
  | Null => cmdErr 0%Z Nil
  | _ => cmdErr 0%Z unexpected
  end.

(** [StringCmd.readReply]: a null reply is the error [redis.Nil]. *)
Definition readString (r : reply) : Cmd string :=
  match r with
  | Bulk s | Status s => cmdOk s
  | Null => cmdErr EmptyString Nil
  | _ => cmdErr EmptyString unexpected
  end.

(** [SliceCmd.readReply]: each element is a string or nil. *)
Definition readSlice (r : reply) : Cmd (list (option string)) :=
  match r with
  | Values xs => cmdOk xs
  | Null => cmdErr [] Nil
  | _ => cmdErr [] unexpected
  end.

(** [ScanCmd.readReply]: the page and the cursor. *)
Definition readScan (r : reply) : Cmd (list string * N) :=
  match r with
  | Page cursor members => cmdOk (members, cursor)
  | Null => cmdErr ([], 0%N) Nil
  | _ => cmdErr ([], 0%N) unexpected
  end.

(** [Client.Process]: send, then decode. *)
Definition process {A} (zero : A) (read : reply -> Cmd A) (cmd : command)
  : IO (Cmd A) :=
  bind (roundTrip cmd) (fun r =>
    ret (match r with
         | Ok rep => read rep
         | Fail e => cmdErr zero e
         end)).

(** The methods of [redis.Client] the repository calls.  [SetNX] and
    [SetXX] are called with expiration 0: go-redis then sends [SETNX k v]
    and [SET k v XX]. *)
Definition Get (key : string) : IO (Cmd string) :=
  process EmptyString readString (GET key).

Definition SetNX (key value : string) : IO (Cmd bool) :=
  process false readBool (SETNX key value).

Definition SetXX (key value : string) : IO (Cmd bool) :=
  process false readBool (SET_XX key value).

Definition Del (key : string) : IO (Cmd Z) :=
  process 0%Z readInt (DEL key).

Definition MGet (keys : list string) : IO (Cmd (list (option string))) :=
  process [] readSlice (MGET keys).

Definition SAdd (key member : string) : IO (Cmd Z) :=
  process 0%Z readInt (SADD key member).

Definition SRem (key member : string) : IO (Cmd Z) :=
  process 0%Z readInt (SREM key member).

(** [SScan(ctx, key, cursor, "*", count)].  The pattern [*] matches every
    member, so MATCH does not filter.  go-redis sends COUNT only when
    [count > 0]; without it the server uses 10. *)
Definition sent_count (count : Z) : Z :=
  if (0 <? count)%Z then count else 10%Z.

Definition SScan (key : string) (cursor : N) (count : Z)
  : IO (Cmd (list string * N)) :=
  process ([], 0%N) readScan (SSCAN key cursor (sent_count count)).

(** ** Transaction pipelines

    [TxPipeline()] gives an empty queue; only commands issued on the
    pipeline itself are queued.  [Exec] on an empty queue returns
    [nil, nil] without a round trip; otherwise the queue runs as one
    MULTI/EXEC unit. *)
Definition Pipeliner : Type := list command.

Definition TxPipeline : Pipeliner := [].

Definition Discard (txn : Pipeliner) : Pipeliner := [].

Fixpoint serve_all (cmds : list command) (s : Server) : Server :=
  match cmds with
  | [] => s
  | cmd :: rest => serve_all rest (snd (serve cmd s))
  end.

Definition Exec (txn : Pipeliner) : IO (option error) :=
  fun c =>
    match txn with
    | [] => (None, c)
    | _ :: _ =>
        match faults c with
        | Some msg :: rest =>
            (Some (NetError msg), {| server := server c; faults := rest |})
        | _ =>
            (None, {| server := serve_all txn (server c);
                      faults := tail (faults c) |})
        end
    end.

End redis.

Notation "'let*' x ':=' m 'in' k" := (redis.bind m (fun x => k))
  (at level 10, x name, m at level 100, k at level 200, only parsing).

Import redis.

(* ===================================================================== *)
(** * The repository: [package order] *)
(* ===================================================================== *)

(** What the repository uses of [package model] and of [encoding/json].
    Neither is among the sources, so both are parameters: the entity with
    its [OrderID] field, [json.Marshal] on an Order and [json.Unmarshal]
    into one. *)
Class Model : Type := {
  Order : Type;
  OrderID : Order -> N;
  json_Marshal : Order -> result string;
  json_Unmarshal : string -> result Order
}.

Section RedisRepo.
Context {M : Model}.

(** [func OrderIdKey(id uint64) string] *)
Definition OrderIdKey (id : N) : string := "order:" +:+ decimal id.

(** [var ErrNotExits = errors.New("order does not exists")] *)
Definition ErrNotExits : error := errorString "order does not exists".

(** [func (r *RedisRepo) Insert(ctx, order) error].  The three commands go
    to [r.Client]; [txn] is created, discarded on the error paths and
    executed at the end, and nothing is ever queued on it. *)
Definition Insert (order : Order) : IO (option error) :=
  match json_Marshal order with
  | Fail err => ret (Some (wrapError "failed to decode order" err))
  | Ok data =>
      let key := OrderIdKey (OrderID order) in
      let txn := TxPipeline in
      let* res := SetNX key data in
      match Err res with
      | Some err =>
          let txn := Discard txn in
          ret (Some (wrapError "failed to set data in redis" err))
      | None =>
          let* added := SAdd "orders" key in
          match Err added with
          | Some err =>
              let txn := Discard txn in
              ret (Some (wrapError "failed to add redis orderid set" err))
          | None =>
              let* done := Exec txn in
              match done with
              | Some err =>
                  ret (Some (wrapError
                    "error executing redis transaction in insert order " err))
              | None => ret None
              end
          end
      end
  end.

(** [func (r *RedisRepo) FindByID(ctx, id) (model.Order, error)] *)
Definition FindByID (id : N) : IO (result Order) :=
  let key := OrderIdKey id in
  let* got := Get key in
  if errors_Is (Err got) Nil then ret (Fail ErrNotExits)
  else match Err got with
       | Some err => ret (Fail (wrapError "redis get error" err))
       | None =>
           match json_Unmarshal (Val got) with
           | Fail err =>
               ret (Fail (wrapError "failed to decode order json" err))
           | Ok order => ret (Ok order)
           end
       end.

(** [func (r *RedisRepo) DeleteByID(ctx, id) error] *)
Definition DeleteByID (id : N) : IO (option error) :=
  let key := OrderIdKey id in
  let txn := TxPipeline in
  let* deleted := Del key in
  if errors_Is (Err deleted) Nil then
    let txn := Discard txn in ret (Some ErrNotExits)
  else match Err deleted with
       | Some err =>
           let txn := Discard txn in
           ret (Some (wrapError "error delete order from redis" err))
       | None =>
           let* removed := SRem "orders" key in
           match Err removed with
           | Some err =>
               ret (Some (wrapError "error deleting orderid from set" err))
           | None =>
               let* done := Exec txn in
               match done with
               | Some err =>
                   ret (Some (wrapError
                     "error executing redis transaction in delete order " err))
               | None => ret None
               end
           end
       end.

(** [func (r *RedisRepo) Update(ctx, order) error] *)
Definition Update (order : Order) : IO (option error) :=
  match json_Marshal order with
  | Fail err => ret (Some (wrapError "error to encode order " err))
  | Ok data =>
      let key := OrderIdKey (OrderID order) in
      let* set := SetXX key data in
      if errors_Is (Err set) Nil then ret (Some ErrNotExits)
      else match Err set with
           | Some err =>
               ret (Some (wrapError "error updating order in redis" err))
           | None => ret None
           end
  end.

Record FindAllPage : Type := { Size : N; Offset : N }.

Record FindResults : Type := { Orders : list Order; Cursor : N }.

(** The loop of [FindAll] over the values of MGET, first to last:
    [x.(string)] panics on a nil value, a value that does not decode ends
    the call with an error, a decoded order goes to its slot. *)
Fixpoint decode_rows (xs : list (option string))
  : outcome (result (list Order)) :=
  match xs with
  | [] => Return (Ok [])
  | x :: rest =>
      match x with
      | None =>
          Panic "interface conversion: interface {} is nil, not string"
      | Some x =>
          match json_Unmarshal x with
          | Fail err => Return (Fail (wrapError "error decoding order" err))
          | Ok order =>
              match decode_rows rest with
              | Return (Ok orders) => Return (Ok (order :: orders))
              | stopped => stopped
              end
          end
      end
  end.

(** [func (r *RedisRepo) FindAll(ctx, page) (FindResults, error)] *)
Definition FindAll (page : FindAllPage)
  : IO (outcome (result FindResults)) :=
  let* res := SScan "orders" (Offset page) (int64_of_uint64 (Size page)) in
  let '(keys, cursor) := Val res in
  match Err res with
  | Some err => ret (Return (Fail (wrapError "faiied to get order ids" err)))
  | None =>
      if decide (length keys = 0%nat) then
        ret (Return (Ok {| Orders := []; Cursor := 0 |}))
      else
        let* xs := MGet keys in
        match Err xs with
        | Some err =>
            ret (Return (Fail (wrapError "error fetching Orders" err)))
        | None =>
            ret (match decode_rows (Val xs) with
                 | Return (Ok orders) =>
                     Return (Ok {| Orders := orders; Cursor := cursor |})
                 | Return (Fail err) => Return (Fail err)
                 | Panic msg => Panic msg
                 end)
        end
  end.

(** A caller that pages through the index as the contract of [FindAll]
    asks: start at offset 0, pass each returned cursor to the next call,
    stop at cursor 0 (or at the first call that does not return a page).
    [calls] bounds the number of calls. *)
Fixpoint FindEvery (calls : nat) (size offset : N)
  : IO (outcome (result (list Order))) :=
  match calls with
  | O => ret (Return (Ok []))
  | S calls' =>
      let* got := FindAll {| Size := size; Offset := offset |} in
      match got with
      | Panic msg => ret (Panic msg)
      | Return (Fail err) => ret (Return (Fail err))
      | Return (Ok page) =>
          if decide (Cursor page = 0%N) then ret (Return (Ok (Orders page)))
          else
            let* more := FindEvery calls' size (Cursor page) in
            ret (match more with
                 | Return (Ok orders) => Return (Ok (Orders page ++ orders)%list)
                 | stopped => stopped
                 end)
      end
  end.

(** ** Store predicates of the specification *)

(** The primary record of a key, if any. *)
Definition primary (s : Server) (key : string) : option string :=
  Strings s !! key.

(** The index set [orders]. *)
Definition index (s : Server) : gset string :=
  default ∅ (Sets s !! "orders").

(** A value that [json.Unmarshal] decodes into an Order. *)
Definition valid_record (v : string) : Prop :=
  exists order, json_Unmarshal v = Ok order.

(** I1: every key of the index has a primary record that decodes. *)
Definition I1 (s : Server) : Prop :=
  forall key, key ∈ index s ->
    exists v, primary s key = Some v /\ valid_record v.

(** Every primary record decodes. *)
Definition records_valid (s : Server) : Prop :=
  forall key v, primary s key = Some v -> valid_record v.

(** The first [n] round trips reach the server. *)
Fixpoint delivers (n : nat) (fs : list (option string)) : bool :=
  match n, fs with
  | O, _ => true
  | S _, [] => true
  | S n', None :: rest => delivers n' rest
  | S _, Some _ :: _ => false
  end.

(** The server after the two commands [Insert] sends, and after the two
    [DeleteByID] sends. *)
Definition after_Insert (key data : string) (s : Server) : Server :=
  (serve (SADD "orders" key) (serve (SETNX key data) s).2).2.

Definition after_DeleteByID (key : string) (s : Server) : Server :=
  (serve (SREM "orders" key) (serve (DEL key) s).2).2.

(** The count that reaches the server for a page. *)
Definition page_count (page : FindAllPage) : Z :=
  sent_count (int64_of_uint64 (Size page)).

End RedisRepo.

(* ===================================================================== *)
(** * [package model] and the codec *)
(* ===================================================================== *)

Module model.

(** Modelled from the spec: [package model] is missing from the sources.
    The specification gives a line item "at minimum an item identifier and
    quantity". *)
Record LineItem : Type := {
  ItemID : string;
  Quantity : N
}.

(** Modelled from the spec: the [Order] struct of [package model] is
    missing from the sources.  The specification lists its fields:
    [OrderID] (unsigned 64-bit), [CustomerID] (UUID-shaped), [LineItems]
    (ordered sequence) and [CreatedAt] (nullable timestamp, here a count of
    nanoseconds). *)
Record Order : Type := {
  OrderID : N;
  CustomerID : string;
  LineItems : list LineItem;
  CreatedAt : option N
}.

Definition is_hex (c : ascii) : bool :=
  let n := nat_of_ascii c in
  ((48 <=? n) && (n <=? 57) || (97 <=? n) && (n <=? 102))%nat.

Definition hyphen : ascii := "-"%char.

(** The 8-4-4-4-12 shape of a UUID in text: [true] marks a hyphen. *)
Definition uuid_shape : list bool :=
  (replicate 8 false ++ [true] ++ replicate 4 false ++ [true]
   ++ replicate 4 false ++ [true] ++ replicate 4 false ++ [true]
   ++ replicate 12 false)%list.

Fixpoint has_shape (shape : list bool) (s : string) : bool :=
  match shape, s with
  | [], EmptyString => true
  | dash :: shape', String c s' =>
      (if dash then Ascii.eqb c hyphen else is_hex c) && has_shape shape' s'
  | _, _ => false
  end.

Definition is_uuid (s : string) : bool := has_shape uuid_shape s.

Definition valid_item (it : LineItem) : bool := is_uuid (ItemID it).

(** A valid Order: the identifier fits 64 bits and the opaque identifiers
    are UUID-shaped. *)
Definition valid (o : Order) : bool :=
  (OrderID o <? 2 ^ 64)%N && is_uuid (CustomerID o)
  && forallb valid_item (LineItems o).

(** ** Encode: field-tagged structured text (JSON) *)

Definition quote : string := String "034"%char EmptyString.

(** An object key with its colon. *)
Definition tag (name : string) : string := quote +:+ name +:+ quote +:+ ":".

Definition text (s : string) : string := quote +:+ s +:+ quote.

(** The literal pieces between the values. *)
Definition order_open : string := "{" +:+ tag "order_id".
Definition customer_sep : string := "," +:+ tag "customer_id".
Definition items_sep : string := "," +:+ tag "line_items".
Definition created_sep : string := "," +:+ tag "created_at".
Definition item_open : string := "{" +:+ tag "item_id".
Definition quantity_sep : string := "," +:+ tag "quantity".

Definition encode_item (it : LineItem) : string :=
  item_open +:+ text (ItemID it) +:+ quantity_sep
  +:+ decimal (Quantity it) +:+ "}".

Fixpoint encode_items (its : list LineItem) : string :=
  match its with
  | [] => EmptyString
  | [it] => encode_item it
  | it :: rest => encode_item it +:+ "," +:+ encode_items rest
  end.

Definition encode_time (t : option N) : string :=
  match t with
  | None => "null"
  | Some ns => decimal ns
  end.

(** Modelled from the spec: [Encode(order) -> bytes], "a self-describing
    byte format (field-tagged, e.g. structured text) preserving all fields
    including the nullable timestamp"; the persisted format is JSON.  The
    code calls [json.Marshal] on the missing [model.Order]. *)
Definition Encode (o : Order) : string :=
  order_open +:+ decimal (OrderID o)
  +:+ customer_sep +:+ text (CustomerID o)
  +:+ items_sep +:+ "[" +:+ encode_items (LineItems o) +:+ "]"
  +:+ created_sep +:+ encode_time (CreatedAt o) +:+ "}".

(** ** Decode: a recursive-descent reader of that text *)

(** Strip the literal [lit] from the front of [s]. *)
Fixpoint expect (lit s : string) : option string :=
  match lit with
  | EmptyString => Some s
  | String c lit' =>
      match s with
      | String c' s' => if Ascii.eqb c c' then expect lit' s' else None
      | EmptyString => None
      end
  end.

Definition digit (c : ascii) : option (uint -> uint) :=
  match nat_of_ascii c with
  | 48 => Some D0 | 49 => Some D1 | 50 => Some D2 | 51 => Some D3
  | 52 => Some D4 | 53 => Some D5 | 54 => Some D6 | 55 => Some D7
  | 56 => Some D8 | 57 => Some D9
  | _ => None
  end%nat.

(** The longest run of decimal digits at the front of [s], and the rest. *)
Fixpoint digits (s : string) : uint * string :=
  match s with
  | EmptyString => (Decimal.Nil, EmptyString)
  | String c s' =>
      match digit c with
      | Some d => let '(ds, rest) := digits s' in (d ds, rest)
      | None => (Decimal.Nil, s)
      end
  end.

(** A number: at least one digit. *)
Definition number (s : string) : option (N * string) :=
  match digits s with
  | (Decimal.Nil, _) => None
  | (ds, rest) => Some (N.of_uint ds, rest)
  end.

(** Cut [n] characters off the front of [s]. *)
Fixpoint cut (n : nat) (s : string) : option (string * string) :=
  match n with
  | O => Some (EmptyString, s)
  | S n' =>
      match s with
      | EmptyString => None
      | String c s' =>
          match cut n' s' with
          | Some (front, rest) => Some (String c front, rest)
          | None => None
          end
      end
  end.

(** A quoted UUID. *)
Definition uuid (s : string) : option (string * string) :=
  match expect quote s with
  | None => None
  | Some s1 =>
      match cut (length uuid_shape) s1 with
      | None => None
      | Some (u, s2) =>
          if is_uuid u then
            match expect quote s2 with
            | Some s3 => Some (u, s3)
            | None => None
            end
          else None
      end
  end.

Definition item (s : string) : option (LineItem * string) :=
  match expect item_open s with
  | None => None
  | Some s1 =>
      match uuid s1 with
      | None => None
      | Some (id, s2) =>
          match expect quantity_sep s2 with
          | None => None
          | Some s3 =>
              match number s3 with
              | None => None
              | Some (q, s4) =>
                  match expect "}" s4 with
                  | None => None
                  | Some s5 => Some ({| ItemID := id; Quantity := q |}, s5)
                  end
              end
          end
      end
  end.

(** One item, then as many [,item] as follow; [fuel] bounds the number of
    items. *)
Fixpoint items (fuel : nat) (s : string) : option (list LineItem * string) :=
  match fuel with
  | O => None
  | S fuel' =>
      match item s with
      | None => None
      | Some (it, rest) =>
          match expect "," rest with
          | None => Some ([it], rest)
          | Some rest' =>
              match items fuel' rest' with
              | Some (its, rest'') => Some (it :: its, rest'')
              | None => None
              end
          end
      end
  end.

(** The array of line items, brackets included. *)
Definition item_array (s : string) : option (list LineItem * string) :=
  match expect "[" s with
  | None => None
  | Some s1 =>
      match expect "]" s1 with
      | Some s2 => Some ([], s2)
      | None =>
          match items (String.length s1) s1 with
          | None => None
          | Some (its, s2) =>
              match expect "]" s2 with
              | Some s3 => Some (its, s3)
              | None => None
              end
          end
      end
  end.

Definition time (s : string) : option (option N * string) :=
  match expect "null" s with
  | Some rest => Some (None, rest)
  | None =>
      match number s with
      | Some (ns, rest) => Some (Some ns, rest)
      | None => None
      end
  end.

Definition order (s : string) : option (Order * string) :=
  match expect order_open s with
  | None => None
  | Some s1 =>
  match number s1 with
  | None => None
  | Some (id, s2) =>
  match expect customer_sep s2 with
  | None => None
  | Some s3 =>
  match uuid s3 with
  | None => None
  | Some (customer, s4) =>
  match expect items_sep s4 with
  | None => None
  | Some s5 =>
  match item_array s5 with
  | None => None
  | Some (its, s6) =>
  match expect created_sep s6 with
  | None => None
  | Some s7 =>
  match time s7 with
  | None => None
  | Some (created, s8) =>
  match expect "}" s8 with
  | None => None
  | Some s9 =>
      Some ({| OrderID := id; CustomerID := customer;
               LineItems := its; CreatedAt := created |}, s9)
  end end end end end end end end end.

(** A string that does not continue a number. *)
Definition ends_number (s : string) : Prop :=
  match s with
  | EmptyString => True
  | String c _ => digit c = None
  end.

Definition CorruptRecord : error := JsonError "invalid order record".

(** Modelled from the spec: [Decode(bytes) -> Order], "inverse of Encode;
    fails with CorruptRecord if the bytes are not valid".  The code calls
    [json.Unmarshal] into the missing [model.Order].  The whole input must
    be one order, and its identifier must fit 64 bits. *)
Definition Decode (s : string) : result Order :=
  match order s with
  | Some (o, EmptyString) =>
      if (OrderID o <? 2 ^ 64)%N then Ok o else Fail CorruptRecord
  | _ => Fail CorruptRecord
  end.

End model.

(** The repository over the modelled entity and codec. *)
Definition spec_model : Model := {|
  Order := model.Order;
  OrderID := model.OrderID;
  json_Marshal := fun o => Ok (model.Encode o);
  json_Unmarshal := model.Decode
|}.

(* ===================================================================== *)
(** * Sequences of calls *)
(* ===================================================================== *)

Section Calls.
Context {M : Model}.

(** The three mutating methods as data, to speak of histories. *)
Inductive call : Type :=
| CallInsert (order : Order)
| CallUpdate (order : Order)
| CallDeleteByID (id : N).

Definition perform (op : call) : IO (option error) :=
  match op with
  | CallInsert order => Insert order
  | CallUpdate order => Update order
  | CallDeleteByID id => DeleteByID id
  end.

(** The calls one after the other, each run to completion; the errors they
    returned, in order, and the connection afterwards. *)
Fixpoint perform_all (ops : list call) : IO (list (option error)) :=
  match ops with
  | [] => ret []
  | op :: rest =>
      let* err := perform op in
      let* errs := perform_all rest in
      ret (err :: errs)
  end.

(** An order whose marshalled text unmarshals: what [Insert] and [Update]
    write for it is a valid record. *)
Definition decodable (order : Order) : Prop :=
  forall data, json_Marshal order = Ok data -> valid_record data.

Definition writes_decodable (op : call) : Prop :=
  match op with
  | CallInsert order | CallUpdate order => decodable order
  | CallDeleteByID _ => True
  end.

(** The store invariant the repository maintains: I1, and no primary
    record that would not decode. *)
Definition consistent (s : Server) : Prop := records_valid s /\ I1 s.

End Calls.

(* ===================================================================== *)
(** * Stores and orders used in the examples *)
(* ===================================================================== *)

Module sample.

Definition customer : string := "123e4567-e89b-12d3-a456-426614174000".
Definition item_a : string := "0a0b0c0d-0000-4000-8000-00000000000a".

Definition order_1 : model.Order := {|
  model.OrderID := 1;
  model.CustomerID := customer;
  model.LineItems := [ {| model.ItemID := item_a; model.Quantity := 2 |} ];
  model.CreatedAt := Some 1700000000000000000%N
|}.

(** The same order with quantity 5. *)
Definition order_1' : model.Order := {|
  model.OrderID := 1;
  model.CustomerID := customer;
  model.LineItems := [ {| model.ItemID := item_a; model.Quantity := 5 |} ];
  model.CreatedAt := Some 1700000000000000000%N
|}.

Definition order_2 : model.Order := {|
  model.OrderID := 2;
  model.CustomerID := customer;
  model.LineItems := [];
  model.CreatedAt := None
|}.

(** A set small enough to be returned whole: one page, cursor 0. *)
Definition whole (members : gset string) (cursor : N) (count : Z)
  : list string * N :=
  (elements members, 0%N).

(** A sparse table: the step from cursor 0 finds no member and hands out
    cursor 1; the step from cursor 1 returns the members and ends the
    scan. *)
Definition sparse (members : gset string) (cursor : N) (count : Z)
  : list string * N :=
  if (cursor =? 0)%N then ([], 1%N) else (elements members, 0%N).

Definition empty_store : Server :=
  {| Strings := ∅; Sets := ∅; Iterate := whole |}.

(** Order 1 stored and indexed. *)
Definition store_1 : Server := {|
  Strings := {[ "order:1" := model.Encode order_1 ]};
  Sets := {[ "orders" := {[ "order:1" ]} ]};
  Iterate := whole
|}.

(** The same content in a sparse table. *)
Definition sparse_store_1 : Server := {|
  Strings := {[ "order:1" := model.Encode order_1 ]};
  Sets := {[ "orders" := {[ "order:1" ]} ]};
  Iterate := sparse
|}.

(** An index entry without its primary record. *)
Definition dangling_store : Server := {|
  Strings := ∅;
  Sets := {[ "orders" := {[ "order:1" ]} ]};
  Iterate := whole
|}.

(** A connection on which every round trip reaches the server. *)
Definition up (s : Server) : Conn := {| server := s; faults := [] |}.

(** The first page, at most ten members a step. *)
Definition page_10 : FindAllPage := {| Size := 10; Offset := 0 |}.

(** A history of four calls. *)
Definition history : list (call (M := spec_model)) :=
  [CallInsert (M := spec_model) order_1;
   CallUpdate (M := spec_model) order_1';
   CallInsert (M := spec_model) order_2;
   CallDeleteByID 1].

(** A connection whose second round trip fails. *)
Definition second_fails (s : Server) : Conn :=
  {| server := s; faults := [None; Some "i/o timeout"] |}.

End sample.

(* ===================================================================== *)
(** * [package handler]: the Create endpoint *)
(* ===================================================================== *)

Module http.

(** What a handler has sent through its [http.ResponseWriter]: the status
    code, once the header is out, and the body bytes so far.  The first
    [WriteHeader] sends the header; a later one is superfluous and changes
    nothing.  [Write] sends the header with status 200 first if none was
    sent. *)
Record ResponseWriter : Type := {
  Status : option N;
  Body : string
}.

Definition StatusOK : N := 200.
Definition StatusCreated : N := 201.
Definition StatusBadRequest : N := 400.
Definition StatusInternalServerError : N := 500.

(** Nothing sent yet. *)
Definition fresh : ResponseWriter := {| Status := None; Body := EmptyString |}.

Definition WriteHeader (code : N) (w : ResponseWriter) : ResponseWriter :=
  match Status w with
  | Some _ => w
  | None => {| Status := Some code; Body := Body w |}
  end.

Definition Write (data : string) (w : ResponseWriter) : ResponseWriter :=
  {| Status := Some (default StatusOK (Status w)); Body := Body w +:+ data |}.

End http.

Section Handler.
Context {M : Model}.

(** The request body struct of [Create] ([customer_id], [line_items]) and
    [time.Time] hold types of packages that are not among the sources;
    [newOrder id body now] is the literal
    [model.Order{OrderID: id, CustomerID: body.CustomerID,
    LineItems: body.LineItems, CreatedAt: &now}]. *)
Variables (Payload Time : Type).
Variable newOrder : N -> Payload -> Time -> Order.

(** What [json.NewDecoder(r.Body).Decode(&body)] made of the request: an
    error, with its text, or the decoded body. *)
Inductive request : Type :=
| Malformed (text : string)
| Decoded (body : Payload).

(** [func (o *Order) Create(w, r)].  [now] is [time.Now().UTC()] and [id]
    is [rand.Uint64()], both read after the body decoded.  The lines
    printed to standard output are not part of the response and are left
    out. *)
Definition Create (req : request) (now : Time) (id : N)
    (w : http.ResponseWriter) : IO http.ResponseWriter :=
  match req with
  | Malformed text =>
      ret (http.Write text (http.WriteHeader http.StatusBadRequest w))
  | Decoded body =>
      let order := newOrder id body now in
      let* err := Insert order in
      match err with
      | Some _ => ret (http.WriteHeader http.StatusInternalServerError w)
      | None =>
          match json_Marshal order with
          | Fail _ =>
              ret (http.WriteHeader http.StatusInternalServerError w)
          | Ok res =>
              ret (http.WriteHeader http.StatusCreated (http.Write res w))
          end
      end
  end.

End Handler.

Arguments Malformed {Payload} text.
Arguments Decoded {Payload} body.
Arguments Create {M Payload Time} newOrder req now id w.

Section CallKeys.
Context {M : Model}.

(** The primary key a call works on. *)
Definition call_key (op : call) : string :=
  match op with
  | CallInsert order | CallUpdate order => OrderIdKey (OrderID order)
  | CallDeleteByID id => OrderIdKey id
  end.

(** A call whose order [json.Marshal] refuses, with the error. *)
Definition marshal_failure (op : call) (err : error) : Prop :=
  match op with
  | CallInsert order | CallUpdate order => json_Marshal order = Fail err
  | CallDeleteByID _ => False
  end.

End CallKeys.

Module scenario.

(** The index names order 1 and the record under it is not an order. *)
Definition garbled_store : Server := {|
  Strings := {[ "order:1" := "not json" ]};
  Sets := {[ "orders" := {[ "order:1" ]} ]};
  Iterate := sample.whole
|}.

(** A connection whose first round trip fails. *)
Definition first_fails (s : Server) : Conn :=
  {| server := s; faults := [Some "connection refused"] |}.

(** The request body of [Create] over the modelled entity. *)
Record payload : Type := {
  customer_id : string;
  line_items : list model.LineItem
}.

Definition newOrder (id : N) (body : payload) (now : N) : model.Order := {|
  model.OrderID := id;
  model.CustomerID := customer_id body;
  model.LineItems := line_items body;
  model.CreatedAt := Some now
|}.

Definition body_1 : payload := {|
  customer_id := sample.customer;
  line_items := [ {| model.ItemID := sample.item_a; model.Quantity := 5 |} ]
|}.

Definition noon : N := 1700000000000000000%N.

End scenario.

(* ===================================================================== *)
(** * Keys *)
(* ===================================================================== *)

Lemma to_uint_nonnil (n : N) : N.to_uint n <> Decimal.Nil.
Proof.
  destruct n as [|p]; [discriminate|].
  apply DecimalPos.Unsigned.to_uint_nonnil.
Qed.

Lemma decimal_inj (m n : N) : decimal m = decimal n -> m = n.
Proof.
  unfold decimal. intros H.
  apply DecimalN.Unsigned.to_uint_inj.
  pose proof (NilZero.usu _ (to_uint_nonnil m)) as Hm.
  pose proof (NilZero.usu _ (to_uint_nonnil n)) as Hn.
  rewrite H in Hm. congruence.
Qed.

(** X1: two ids with the same key are the same id. *)
Lemma OrderIdKey_inj (m n : N) : OrderIdKey m = OrderIdKey n -> m = n.
Proof.
  unfold OrderIdKey. intros H. apply decimal_inj.
  by apply (inj (String.append _)) in H.
Qed.

(** X2: no primary key is the key of the index set, [orders]. *)
Lemma OrderIdKey_not_index (id : N) : OrderIdKey id <> "orders".
Proof.
  unfold OrderIdKey. intros H.
  apply (f_equal (String.get 5)) in H.
  vm_compute in H. discriminate H.
Qed.

(* ===================================================================== *)
(** * The connection and the server, command by command *)
(* ===================================================================== *)

Lemma delivers_S n fs :
  delivers (S n) fs = true -> delivers 1 fs = true /\ delivers n (tail fs) = true.
Proof.
  destruct fs as [|[msg|] rest]; simpl; intros H; try discriminate.
  - split; [done|]. by destruct n.
  - done.
Qed.

Lemma roundTrip_delivered cmd c :
  delivers 1 (faults c) = true ->
  roundTrip cmd c
  = (Ok (serve cmd (server c)).1,
     {| server := (serve cmd (server c)).2; faults := tail (faults c) |}).
Proof.
  unfold roundTrip. destruct (faults c) as [|[msg|] rest]; simpl; intros H;
    try discriminate; by destruct (serve cmd (server c)).
Qed.

Lemma roundTrip_failed cmd c msg rest :
  faults c = Some msg :: rest ->
  roundTrip cmd c = (Fail (NetError msg), {| server := server c; faults := rest |}).
Proof. unfold roundTrip. by intros ->. Qed.

Lemma process_delivered {A} (zero : A) read cmd c :
  delivers 1 (faults c) = true ->
  process zero read cmd c
  = (read (serve cmd (server c)).1,
     {| server := (serve cmd (server c)).2; faults := tail (faults c) |}).
Proof.
  intros H. unfold process, bind. by rewrite roundTrip_delivered.
Qed.

Lemma process_failed {A} (zero : A) read cmd c msg rest :
  faults c = Some msg :: rest ->
  process zero read cmd c
  = (cmdErr zero (NetError msg), {| server := server c; faults := rest |}).
Proof.
  intros H. unfold process, bind. by rewrite (roundTrip_failed _ _ _ _ H).
Qed.

Lemma SETNX_no_error k v s : Err (readBool (serve (SETNX k v) s).1) = None.
Proof. simpl. by destruct (Strings s !! k). Qed.

Lemma SET_XX_no_error k v s : Err (readBool (serve (SET_XX k v) s).1) = None.
Proof. simpl. by destruct (Strings s !! k). Qed.

Lemma DEL_no_error k s : Err (readInt (serve (DEL k) s).1) = None.
Proof. simpl. by destruct (Strings s !! k). Qed.

Lemma SADD_no_error k m s : Err (readInt (serve (SADD k m) s).1) = None.
Proof. simpl. by destruct (decide _). Qed.

Lemma SREM_no_error k m s : Err (readInt (serve (SREM k m) s).1) = None.
Proof. simpl. destruct (Sets s !! k); [by destruct (decide _) | done]. Qed.

(** ** What each command does to the primary records and to the index *)

Lemma primary_SETNX s k v k' :
  primary (serve (SETNX k v) s).2 k'
  = match primary s k with
    | Some _ => primary s k'
    | None => if decide (k = k') then Some v else primary s k'
    end.
Proof.
  unfold primary. simpl. destruct (Strings s !! k) eqn:Hk; simpl; [done|].
  by rewrite lookup_insert.
Qed.

Lemma primary_SET_XX s k v k' :
  primary (serve (SET_XX k v) s).2 k'
  = match primary s k with
    | Some _ => if decide (k = k') then Some v else primary s k'
    | None => primary s k'
    end.
Proof.
  unfold primary. simpl. destruct (Strings s !! k) eqn:Hk; simpl; [|done].
  by rewrite lookup_insert.
Qed.

Lemma primary_DEL s k k' :
  primary (serve (DEL k) s).2 k'
  = if decide (k = k') then None else primary s k'.
Proof.
  unfold primary. simpl. destruct (Strings s !! k) eqn:Hk; simpl.
  - by rewrite lookup_delete.
  - destruct (decide (k = k')); [by subst|done].
Qed.

Lemma Strings_SADD s k m : Strings (serve (SADD k m) s).2 = Strings s.
Proof. simpl. by destruct (decide _). Qed.

Lemma Strings_SREM s k m : Strings (serve (SREM k m) s).2 = Strings s.
Proof.
  simpl. destruct (Sets s !! k); [|done]. by destruct (decide _).
Qed.

Lemma Sets_SETNX s k v : Sets (serve (SETNX k v) s).2 = Sets s.
Proof. simpl. by destruct (Strings s !! k). Qed.

Lemma Sets_SET_XX s k v : Sets (serve (SET_XX k v) s).2 = Sets s.
Proof. simpl. by destruct (Strings s !! k). Qed.

Lemma Sets_DEL s k : Sets (serve (DEL k) s).2 = Sets s.
Proof. simpl. by destruct (Strings s !! k). Qed.

Lemma index_SADD s m : index (serve (SADD "orders" m) s).2 = {[m]} ∪ index s.
Proof.
  unfold index. simpl. destruct (decide _) as [Hin|Hin]; simpl.
  - symmetry. apply subseteq_union_1_L. by apply singleton_subseteq_l.
  - by rewrite lookup_insert_eq.
Qed.

Lemma index_SREM s m : index (serve (SREM "orders" m) s).2 = index s ∖ {[m]}.
Proof.
  unfold index. simpl. destruct (Sets s !! "orders") as [old|] eqn:Hold; simpl.
  - destruct (decide _) as [Hin|Hin]; simpl.
    + destruct (decide _) as [Hempty|Hempty]; simpl.
      * by rewrite lookup_delete_eq, Hempty.
      * by rewrite lookup_insert_eq.
    + rewrite Hold. simpl. symmetry. apply difference_disjoint_L.
      by apply disjoint_singleton_r.
  - rewrite Hold. simpl. by rewrite empty_difference_L.
Qed.

Section Repo.
Context {M : Model}.

Lemma Insert_delivered order data c :
  json_Marshal order = Ok data ->
  delivers 2 (faults c) = true ->
  Insert order c
  = (None, {| server := after_Insert (OrderIdKey (OrderID order)) data (server c);
              faults := tail (tail (faults c)) |}).
Proof.
  intros Hm Hd. apply delivers_S in Hd as [H1 H2].
  unfold Insert. rewrite Hm. unfold bind, SetNX, SAdd.
  rewrite process_delivered, SETNX_no_error by done.
  rewrite process_delivered, SADD_no_error by done.
  done.
Qed.

Lemma DeleteByID_delivered id c :
  delivers 2 (faults c) = true ->
  DeleteByID id c
  = (None, {| server := after_DeleteByID (OrderIdKey id) (server c);
              faults := tail (tail (faults c)) |}).
Proof.
  intros Hd. apply delivers_S in Hd as [H1 H2].
  unfold DeleteByID, bind, Del, SRem.
  rewrite process_delivered, DEL_no_error by done. cbn [errors_Is]. cbv beta iota.
  rewrite process_delivered, SREM_no_error by done.
  done.
Qed.

Lemma Update_delivered order data c :
  json_Marshal order = Ok data ->
  delivers 1 (faults c) = true ->
  Update order c
  = (None, {| server := (serve (SET_XX (OrderIdKey (OrderID order)) data) (server c)).2;
              faults := tail (faults c) |}).
Proof.
  intros Hm Hd. unfold Update. rewrite Hm. unfold bind, SetXX.
  rewrite process_delivered, SET_XX_no_error by done.
  done.
Qed.

(** A call that returned nil had all its round trips answered. *)
Lemma Insert_nil order c :
  (Insert order c).1 = None ->
  exists data, json_Marshal order = Ok data /\
    server (Insert order c).2
    = after_Insert (OrderIdKey (OrderID order)) data (server c).
Proof.
  unfold Insert. destruct (json_Marshal order) as [data|err] eqn:Hm; [|done].
  intros H. exists data. split; [done|]. revert H.
  unfold bind, SetNX, SAdd.
  destruct (faults c) as [|[msg|] rest] eqn:Hf.
  - rewrite process_delivered, SETNX_no_error by (by rewrite Hf).
    rewrite process_delivered, SADD_no_error by (by simpl; rewrite Hf). done.
  - by rewrite (process_failed _ _ _ _ _ _ Hf).
  - rewrite process_delivered, SETNX_no_error by (by rewrite Hf).
    rewrite Hf. simpl tail.
    destruct rest as [|[msg|] rest'].
    + rewrite process_delivered, SADD_no_error by done. done.
    + by erewrite process_failed by done.
    + rewrite process_delivered, SADD_no_error by done. done.
Qed.
Lemma Update_nil order c :
  (Update order c).1 = None ->
  exists data, json_Marshal order = Ok data /\
    server (Update order c).2
    = (serve (SET_XX (OrderIdKey (OrderID order)) data) (server c)).2.
Proof.
  unfold Update. destruct (json_Marshal order) as [data|err] eqn:Hm; [|done].
  intros H. exists data. split; [done|]. revert H.
  unfold bind, SetXX.
  destruct (faults c) as [|[msg|] rest] eqn:Hf.
  - by rewrite process_delivered, SET_XX_no_error by (by rewrite Hf).
  - by rewrite (process_failed _ _ _ _ _ _ Hf).
  - by rewrite process_delivered, SET_XX_no_error by (by rewrite Hf).
Qed.

Lemma DeleteByID_nil id c :
  (DeleteByID id c).1 = None ->
  server (DeleteByID id c).2 = after_DeleteByID (OrderIdKey id) (server c).
Proof.
  unfold DeleteByID, bind, Del, SRem.
  destruct (faults c) as [|[msg|] rest] eqn:Hf.
  - rewrite process_delivered, DEL_no_error by (by rewrite Hf).
    cbn [errors_Is]. cbv beta iota.
    by rewrite process_delivered, SREM_no_error by (by simpl; rewrite Hf).
  - by rewrite (process_failed _ _ _ _ _ _ Hf).
  - rewrite process_delivered, DEL_no_error by (by rewrite Hf).
    cbn [errors_Is]. cbv beta iota. rewrite Hf. simpl tail.
    destruct rest as [|[msg|] rest'].
    + by rewrite process_delivered, SREM_no_error by done.
    + by erewrite process_failed by done.
    + by rewrite process_delivered, SREM_no_error by done.
Qed.

(** The [redis.Nil] branches of [Update] and [DeleteByID] are dead: on no
    connection and no store does either return [ErrNotExits]. *)
Lemma Update_never_NotFound order c : (Update order c).1 <> Some ErrNotExits.
Proof.
  unfold Update. destruct (json_Marshal order) as [data|err]; [|done].
  unfold bind, SetXX. destruct (faults c) as [|[msg|] rest] eqn:Hf.
  - by rewrite process_delivered, SET_XX_no_error by (by rewrite Hf).
  - by rewrite (process_failed _ _ _ _ _ _ Hf).
  - by rewrite process_delivered, SET_XX_no_error by (by rewrite Hf).
Qed.

Lemma DeleteByID_never_NotFound id c : (DeleteByID id c).1 <> Some ErrNotExits.
Proof.
  destruct (DeleteByID id c).1 as [err|] eqn:Hres; [|done].
  revert Hres. unfold DeleteByID, bind, Del, SRem.
  destruct (faults c) as [|[msg|] rest] eqn:Hf.
  - rewrite process_delivered, DEL_no_error by (by rewrite Hf).
    cbn [errors_Is]. cbv beta iota.
    by rewrite process_delivered, SREM_no_error by (by simpl; rewrite Hf).
  - rewrite (process_failed _ _ _ _ _ _ Hf). simpl. by intros [= <-].
  - rewrite process_delivered, DEL_no_error by (by rewrite Hf).
    cbn [errors_Is]. cbv beta iota. rewrite Hf. simpl tail.
    destruct rest as [|[msg|] rest'].
    + by rewrite process_delivered, SREM_no_error by done.
    + erewrite process_failed by done. simpl. by intros [= <-].
    + by rewrite process_delivered, SREM_no_error by done.
Qed.
(** ** The invariant *)

Lemma consistent_after_Insert key data s :
  valid_record data -> consistent s -> consistent (after_Insert key data s).
Proof.
  intros Hdata [Hvalid Hindex]. unfold after_Insert.
  assert (Hvalid' : records_valid (serve (SETNX key data) s).2).
  { intros k v. rewrite primary_SETNX.
    destruct (primary s key) eqn:Hkey; [apply Hvalid|].
    destruct (decide (key = k)); [by intros [= <-]|apply Hvalid]. }
  split.
  - intros k v. unfold primary. rewrite Strings_SADD. apply Hvalid'.
  - intros k. rewrite index_SADD. unfold primary at 1. rewrite Strings_SADD.
    fold (primary (serve (SETNX key data) s).2 k).
    intros [->%elem_of_singleton|Hin]%elem_of_union.
    + assert (is_Some (primary (serve (SETNX key data) s).2 key)) as [v Hv].
      { rewrite primary_SETNX. destruct (primary s key) eqn:Hkey; [done|].
        by destruct (decide (key = key)). }
      exists v. split; [done|]. by apply (Hvalid' key).
    + unfold index in Hin. rewrite Sets_SETNX in Hin.
      destruct (Hindex k Hin) as (v & Hv & _).
      assert (is_Some (primary (serve (SETNX key data) s).2 k)) as [v' Hv'].
      { rewrite primary_SETNX. destruct (primary s key) eqn:Hkey; [done|].
        by destruct (decide (key = k)). }
      exists v'. split; [done|]. by apply (Hvalid' k).
Qed.

Lemma consistent_after_Update key data s :
  valid_record data -> consistent s ->
  consistent (serve (SET_XX key data) s).2.
Proof.
  intros Hdata [Hvalid Hindex].
  assert (Hvalid' : records_valid (serve (SET_XX key data) s).2).
  { intros k v. rewrite primary_SET_XX.
    destruct (primary s key) eqn:Hkey; [|apply Hvalid].
    destruct (decide (key = k)); [by intros [= <-]|apply Hvalid]. }
  split; [done|].
  intros k Hin. unfold index in Hin. rewrite Sets_SET_XX in Hin.
  destruct (Hindex k Hin) as (v & Hv & _).
  assert (is_Some (primary (serve (SET_XX key data) s).2 k)) as [v' Hv'].
  { rewrite primary_SET_XX. destruct (primary s key) eqn:Hkey; [|done].
    by destruct (decide (key = k)). }
  exists v'. split; [done|]. by apply (Hvalid' k).
Qed.

Lemma consistent_after_DeleteByID key s :
  consistent s -> consistent (after_DeleteByID key s).
Proof.
  intros [Hvalid Hindex]. unfold after_DeleteByID. split.
  - intros k v. unfold primary. rewrite Strings_SREM.
    fold (primary (serve (DEL key) s).2 k). rewrite primary_DEL.
    destruct (decide (key = k)); [done|apply Hvalid].
  - intros k. rewrite index_SREM. unfold primary. rewrite Strings_SREM.
    fold (primary (serve (DEL key) s).2 k). rewrite primary_DEL.
    unfold index. rewrite Sets_DEL. fold (index s).
    intros [Hin Hne%not_elem_of_singleton]%elem_of_difference.
    destruct (decide (key = k)); [congruence|]. by apply Hindex.
Qed.

Lemma consistent_perform op c :
  writes_decodable op -> consistent (server c) ->
  (perform op c).1 = None -> consistent (server (perform op c).2).
Proof.
  destruct op as [order|order|id]; simpl; intros Hdec Hc Hnil.
  - destruct (Insert_nil _ _ Hnil) as (data & Hm & ->).
    apply consistent_after_Insert; [by apply Hdec|done].
  - destruct (Update_nil _ _ Hnil) as (data & Hm & ->).
    apply consistent_after_Update; [by apply Hdec|done].
  - rewrite (DeleteByID_nil _ _ Hnil). by apply consistent_after_DeleteByID.
Qed.

Lemma consistent_perform_all ops c :
  Forall writes_decodable ops -> consistent (server c) ->
  Forall (fun err => err = None) (perform_all ops c).1 ->
  consistent (server (perform_all ops c).2).
Proof.
  revert c. induction ops as [|op ops IH]; intros c Hdec Hc Hnil; [done|].
  apply Forall_cons in Hdec as [Hop Hops].
  simpl in *. unfold bind in *.
  destruct (perform op c) as [err c1] eqn:Hstep.
  destruct (perform_all ops c1) as [errs c2] eqn:Hrest.
  simpl in *. apply Forall_cons in Hnil as [-> Hnil].
  pose proof (consistent_perform op c Hop Hc) as Hc1.
  rewrite Hstep in Hc1. specialize (Hc1 eq_refl).
  specialize (IH c1 Hops Hc1). rewrite Hrest in IH. by apply IH.
Qed.

(** C6: from a store that satisfies I1 and holds only records that decode
    (the empty store is one), after any sequence of [Insert], [Update] and
    [DeleteByID] calls that each ran to completion and returned nil, I1
    holds: every key of the index has a primary record that decodes.  The
    orders written are those whose marshalled text unmarshals. *)
Theorem I1_after_successful_calls ops c :
  consistent (server c) ->
  Forall writes_decodable ops ->
  Forall (fun err => err = None) (perform_all ops c).1 ->
  I1 (server (perform_all ops c).2).
Proof.
  intros Hc Hdec Hnil. by apply (consistent_perform_all ops c Hdec Hc Hnil).
Qed.

(** ** Insert, Update, DeleteByID on the keys the claims speak of *)

(** C1 (the code departs from it): when the primary record of
    [order.OrderID] exists and the server answers, [Insert] does not fail:
    SETNX answers 0, [BoolCmd] reports no error, and the call returns nil.
    The stored records are unchanged, as the claim says, and the key is
    (re)added to the index. *)
Theorem Insert_existing_key_returns_nil order data v c :
  json_Marshal order = Ok data ->
  primary (server c) (OrderIdKey (OrderID order)) = Some v ->
  delivers 2 (faults c) = true ->
  (Insert order c).1 = None /\
  Strings (server (Insert order c).2) = Strings (server c) /\
  index (server (Insert order c).2)
  = {[OrderIdKey (OrderID order)]} ∪ index (server c).
Proof.
  intros Hm Hv Hd. rewrite (Insert_delivered _ _ _ Hm Hd). simpl fst. simpl snd.
  unfold after_Insert. cbn [server].
  split; [done|]. rewrite Strings_SADD, index_SADD. unfold index.
  rewrite Sets_SETNX. split; [|done].
  unfold primary in Hv. simpl. by rewrite Hv.
Qed.

(** C2 (the code departs from it): when no primary record exists for
    [order.OrderID] and the server answers, [Update] leaves the store as it
    was, as the claim says, but returns nil, not [ErrNotExits]: the null
    reply of [SET key value XX] reaches the code as a [BoolCmd] without
    error, so the [redis.Nil] branch is never taken. *)
Theorem Update_absent_key_returns_nil order data c :
  json_Marshal order = Ok data ->
  primary (server c) (OrderIdKey (OrderID order)) = None ->
  delivers 1 (faults c) = true ->
  (Update order c).1 = None /\ server (Update order c).2 = server c.
Proof.
  intros Hm Hv Hd. rewrite (Update_delivered _ _ _ Hm Hd). simpl fst. simpl snd.
  split; [done|]. unfold primary in Hv. cbn [server]. simpl. by rewrite Hv.
Qed.

(** C3 (the code departs from it): when the primary key [order:<id>] is
    absent and the server answers, [DeleteByID] returns nil, not
    [ErrNotExits]: DEL answers the integer 0, never null.  The primary
    records are unchanged; the key is removed from the index if it was
    there. *)
Theorem DeleteByID_absent_key_returns_nil id c :
  primary (server c) (OrderIdKey id) = None ->
  delivers 2 (faults c) = true ->
  (DeleteByID id c).1 = None /\
  Strings (server (DeleteByID id c).2) = Strings (server c) /\
  index (server (DeleteByID id c).2) = index (server c) ∖ {[OrderIdKey id]}.
Proof.
  intros Hv Hd. rewrite (DeleteByID_delivered _ _ Hd). simpl fst. simpl snd.
  unfold after_DeleteByID. cbn [server].
  split; [done|]. rewrite Strings_SREM, index_SREM. unfold index.
  rewrite Sets_DEL. split; [|done].
  unfold primary in Hv. simpl. by rewrite Hv.
Qed.

(** ** The transaction handle *)

Lemma Exec_TxPipeline c : Exec TxPipeline c = (None, c).
Proof. reflexivity. Qed.

Lemma Exec_Discard txn c : Exec (Discard txn) c = (None, c).
Proof. reflexivity. Qed.

(** C7 (the code departs from it): the two mutations of [Insert] are not
    batched into the commit.  When the SETNX round trip is answered and the
    SADD round trip fails, [Insert] returns before [Exec] and the server
    already holds the primary record, without the index entry. *)
Theorem Insert_writes_before_commit order data c msg rest :
  json_Marshal order = Ok data ->
  primary (server c) (OrderIdKey (OrderID order)) = None ->
  faults c = None :: Some msg :: rest ->
  (Insert order c).1
  = Some (wrapError "failed to add redis orderid set" (NetError msg)) /\
  primary (server (Insert order c).2) (OrderIdKey (OrderID order)) = Some data /\
  index (server (Insert order c).2) = index (server c).
Proof.
  intros Hm Hv Hf. unfold Insert. rewrite Hm. unfold bind, SetNX, SAdd.
  rewrite process_delivered, SETNX_no_error by (by rewrite Hf).
  rewrite Hf. simpl tail. erewrite process_failed by done. simpl.
  unfold primary, index in *. rewrite Hv. simpl.
  by rewrite lookup_insert_eq.
Qed.

Lemma DeleteByID_deletes_before_commit id v c msg rest :
  primary (server c) (OrderIdKey id) = Some v ->
  faults c = None :: Some msg :: rest ->
  (DeleteByID id c).1
  = Some (wrapError "error deleting orderid from set" (NetError msg)) /\
  primary (server (DeleteByID id c).2) (OrderIdKey id) = None /\
  index (server (DeleteByID id c).2) = index (server c).
Proof.
  intros Hv Hf. unfold DeleteByID, bind, Del, SRem.
  rewrite process_delivered, DEL_no_error by (by rewrite Hf).
  cbn [errors_Is]. cbv beta iota.
  rewrite Hf. simpl tail. erewrite process_failed by done. simpl.
  unfold primary, index in *. rewrite Hv. simpl.
  by rewrite lookup_delete_eq.
Qed.

(** ** FindByID *)

Lemma FindByID_delivered id c :
  delivers 1 (faults c) = true ->
  (FindByID id c).1
  = match primary (server c) (OrderIdKey id) with
    | None => Fail ErrNotExits
    | Some v =>
        match json_Unmarshal v with
        | Ok order => Ok order
        | Fail err => Fail (wrapError "failed to decode order json" err)
        end
    end.
Proof.
  intros Hd. unfold FindByID, bind, Get. rewrite process_delivered by done.
  unfold primary. simpl. destruct (Strings (server c) !! OrderIdKey id); simpl.
  - by destruct (json_Unmarshal s).
  - done.
Qed.

Lemma FindByID_server id c : server (FindByID id c).2 = server c.
Proof.
  unfold FindByID, bind, Get, process, bind, roundTrip.
  destruct (faults c) as [|[msg|] rest]; simpl.
  - destruct (Strings (server c) !! OrderIdKey id); simpl; [|done].
    by destruct (json_Unmarshal s).
  - done.
  - destruct (Strings (server c) !! OrderIdKey id); simpl; [|done].
    by destruct (json_Unmarshal s).
Qed.

Lemma FindByID_NotFound_absent id c :
  (FindByID id c).1 = Fail ErrNotExits ->
  primary (server c) (OrderIdKey id) = None.
Proof.
  unfold FindByID, bind, Get, process, bind, roundTrip, primary.
  destruct (faults c) as [|[msg|] rest]; simpl.
  - destruct (Strings (server c) !! OrderIdKey id); simpl; [|done].
    by destruct (json_Unmarshal s).
  - done.
  - destruct (Strings (server c) !! OrderIdKey id); simpl; [|done].
    by destruct (json_Unmarshal s).
Qed.

(** C9: [FindByID] never changes the store; it returns [ErrNotExits] only
    when the primary key is absent; and when the server answers the GET, an
    absent key gives [ErrNotExits] and a key whose record decodes gives the
    decoded Order. *)
Theorem FindByID_spec id c :
  server (FindByID id c).2 = server c /\
  ((FindByID id c).1 = Fail ErrNotExits ->
   primary (server c) (OrderIdKey id) = None) /\
  (delivers 1 (faults c) = true ->
   (primary (server c) (OrderIdKey id) = None ->
    (FindByID id c).1 = Fail ErrNotExits) /\
   (forall v order,
      primary (server c) (OrderIdKey id) = Some v ->
      json_Unmarshal v = Ok order ->
      (FindByID id c).1 = Ok order)).
Proof.
  split; [apply FindByID_server|]. split; [apply FindByID_NotFound_absent|].
  intros Hd. split.
  - intros Hv. by rewrite FindByID_delivered, Hv.
  - intros v order Hv Ho. by rewrite FindByID_delivered, Hv, Ho.
Qed.

(** ** FindAll *)

Lemma FindAll_empty_page page c members next :
  delivers 1 (faults c) = true ->
  Sets (server c) !! "orders" = Some members ->
  Iterate (server c) members (Offset page) (page_count page) = ([], next) ->
  (FindAll page c).1 = Return (Ok {| Orders := []; Cursor := 0 |}).
Proof.
  intros Hd Hset Hscan. unfold FindAll, bind, SScan.
  rewrite process_delivered by done. simpl.
  unfold page_count in Hscan. by rewrite Hset, Hscan.
Qed.

Lemma FindAll_scanned page c members keys next :
  delivers 2 (faults c) = true ->
  Sets (server c) !! "orders" = Some members ->
  Iterate (server c) members (Offset page) (page_count page) = (keys, next) ->
  keys <> [] ->
  (FindAll page c).1
  = match decode_rows (map (primary (server c)) keys) with
    | Return (Ok orders) => Return (Ok {| Orders := orders; Cursor := next |})
    | Return (Fail err) => Return (Fail err)
    | Panic msg => Panic msg
    end.
Proof.
  intros [H1 H2]%delivers_S Hset Hscan Hne. unfold FindAll, bind, SScan, MGet.
  rewrite process_delivered by done. simpl.
  unfold page_count in Hscan. rewrite Hset, Hscan. simpl.
  destruct keys as [|key keys]; [done|].
  destruct (decide _) as [Hlen|_]; [done|].
  rewrite process_delivered by done. simpl.
  by destruct (decode_rows _) as [[orders|err]|msg].
Qed.

Lemma decode_rows_ok s keys orders :
  Forall2 (fun key order =>
             exists v, primary s key = Some v /\ json_Unmarshal v = Ok order)
          keys orders ->
  decode_rows (map (primary s) keys) = Return (Ok orders).
Proof.
  induction 1 as [|key order keys orders (v & Hv & Ho) _ IH]; [done|].
  simpl. by rewrite Hv, Ho, IH.
Qed.

Lemma decode_rows_panic s before key after :
  Forall (fun k => exists v order,
            primary s k = Some v /\ json_Unmarshal v = Ok order) before ->
  primary s key = None ->
  decode_rows (map (primary s) (before ++ key :: after)%list)
  = Panic "interface conversion: interface {} is nil, not string".
Proof.
  intros Hbefore Hkey. induction Hbefore as [|k ks (v & o & Hv & Ho) _ IH]; simpl.
  - by rewrite Hkey.
  - by rewrite Hv, Ho, IH.
Qed.

Lemma decode_rows_invalid s before key after v err :
  Forall (fun k => exists v order,
            primary s k = Some v /\ json_Unmarshal v = Ok order) before ->
  primary s key = Some v -> json_Unmarshal v = Fail err ->
  decode_rows (map (primary s) (before ++ key :: after)%list)
  = Return (Fail (wrapError "error decoding order" err)).
Proof.
  intros Hbefore Hkey Herr.
  induction Hbefore as [|k ks (v' & o & Hv & Ho) _ IH]; simpl.
  - by rewrite Hkey, Herr.
  - by rewrite Hv, Ho, IH.
Qed.

(** C10: when the scan step returns a non-empty list of keys and every
    key has a primary record that decodes, [FindAll] returns exactly the
    decoded orders, one per key and in the order of the keys, with the
    cursor of the scan step. *)
Theorem FindAll_page_in_scan_order page c members keys next orders :
  delivers 2 (faults c) = true ->
  Sets (server c) !! "orders" = Some members ->
  Iterate (server c) members (Offset page) (page_count page) = (keys, next) ->
  keys <> [] ->
  Forall2 (fun key order =>
             exists v, primary (server c) key = Some v /\
                       json_Unmarshal v = Ok order)
          keys orders ->
  (FindAll page c).1 = Return (Ok {| Orders := orders; Cursor := next |}).
Proof.
  intros Hd Hset Hscan Hne Hrows.
  rewrite (FindAll_scanned _ _ _ _ _ Hd Hset Hscan Hne).
  by rewrite (decode_rows_ok _ _ _ Hrows).
Qed.

(** C5 (the code departs from it): when the scanned page holds a key
    whose primary record is missing (the records before it decoding), the
    nil value of MGET meets [x.(string)] and [FindAll] panics; it returns
    no error.  (A record that is present and does not decode is surfaced:
    [FindAll_invalid_record_fails].) *)
Theorem FindAll_missing_record_panics page c members before key after next :
  delivers 2 (faults c) = true ->
  Sets (server c) !! "orders" = Some members ->
  Iterate (server c) members (Offset page) (page_count page)
  = ((before ++ key :: after)%list, next) ->
  Forall (fun k => exists v order,
            primary (server c) k = Some v /\ json_Unmarshal v = Ok order)
         before ->
  primary (server c) key = None ->
  (FindAll page c).1
  = Panic "interface conversion: interface {} is nil, not string".
Proof.
  intros Hd Hset Hscan Hbefore Hkey.
  rewrite (FindAll_scanned _ _ _ _ _ Hd Hset Hscan) by (by destruct before).
  by rewrite (decode_rows_panic _ _ _ _ Hbefore Hkey).
Qed.

(** X14: when the scanned page holds a key whose record does not decode
    (the records before it decoding), [FindAll] returns the wrapped decode
    error and no page. *)
Lemma FindAll_invalid_record_fails page c members before key after next v err :
  delivers 2 (faults c) = true ->
  Sets (server c) !! "orders" = Some members ->
  Iterate (server c) members (Offset page) (page_count page)
  = ((before ++ key :: after)%list, next) ->
  Forall (fun k => exists v order,
            primary (server c) k = Some v /\ json_Unmarshal v = Ok order)
         before ->
  primary (server c) key = Some v -> json_Unmarshal v = Fail err ->
  (FindAll page c).1 = Return (Fail (wrapError "error decoding order" err)).
Proof.
  intros Hd Hset Hscan Hbefore Hkey Herr.
  rewrite (FindAll_scanned _ _ _ _ _ Hd Hset Hscan) by (by destruct before).
  by rewrite (decode_rows_invalid _ _ _ _ _ _ Hbefore Hkey Herr).
Qed.

(** C4 (the code departs from it): when the first scan step finds no
    member, [FindAll] returns cursor 0 whatever cursor the server handed
    out, so paging from offset 0 until cursor 0 ends after one call with no
    order, whatever the index holds. *)
Theorem FindEvery_ends_at_empty_page calls size c members next :
  delivers 1 (faults c) = true ->
  Sets (server c) !! "orders" = Some members ->
  Iterate (server c) members 0 (page_count {| Size := size; Offset := 0 |})
  = ([], next) ->
  (FindEvery (S calls) size 0 c).1 = Return (Ok []).
Proof.
  intros Hd Hset Hscan. simpl. unfold bind.
  pose proof (FindAll_empty_page {| Size := size; Offset := 0 |} c members next
                Hd Hset Hscan) as Hpage.
  destruct (FindAll _ c) as [got c1]. simpl in Hpage. by subst got.
Qed.

End Repo.

(* ===================================================================== *)
(** * The codec round trip *)
(* ===================================================================== *)

Module codec.
Import model.

Lemma app_cons c s t : String c s +:+ t = String c (s +:+ t).
Proof. reflexivity. Qed.

Lemma app_empty t : EmptyString +:+ t = t.
Proof. reflexivity. Qed.

Lemma app_assoc s t u : (s +:+ t) +:+ u = s +:+ (t +:+ u).
Proof.
  induction s as [|c s IH]; [reflexivity|].
  rewrite !app_cons. by rewrite IH.
Qed.

Lemma length_app s t : String.length (s +:+ t) = (String.length s + String.length t)%nat.
Proof.
  induction s as [|c s IH]; [reflexivity|].
  rewrite app_cons. simpl. by rewrite IH.
Qed.

Lemma expect_app lit s : expect lit (lit +:+ s) = Some s.
Proof.
  induction lit as [|c lit IH]; [reflexivity|].
  rewrite app_cons. simpl. by rewrite Ascii.eqb_refl.
Qed.

Lemma expect_same lit : expect lit lit = Some EmptyString.
Proof.
  induction lit as [|c lit IH]; [reflexivity|].
  simpl. by rewrite Ascii.eqb_refl.
Qed.

Lemma digits_app d rest :
  ends_number rest ->
  digits (NilEmpty.string_of_uint d +:+ rest) = (d, rest).
Proof.
  intros Hrest. induction d as [|d IH|d IH|d IH|d IH|d IH|d IH|d IH|d IH|d IH|d IH];
    simpl NilEmpty.string_of_uint; rewrite ?app_cons, ?app_empty.
  - destruct rest as [|c rest]; [reflexivity|]. simpl in *. by rewrite Hrest.
  - simpl. change (digit "0") with (Some D0). cbv iota beta. by rewrite IH.
  - simpl. change (digit "1") with (Some D1). cbv iota beta. by rewrite IH.
  - simpl. change (digit "2") with (Some D2). cbv iota beta. by rewrite IH.
  - simpl. change (digit "3") with (Some D3). cbv iota beta. by rewrite IH.
  - simpl. change (digit "4") with (Some D4). cbv iota beta. by rewrite IH.
  - simpl. change (digit "5") with (Some D5). cbv iota beta. by rewrite IH.
  - simpl. change (digit "6") with (Some D6). cbv iota beta. by rewrite IH.
  - simpl. change (digit "7") with (Some D7). cbv iota beta. by rewrite IH.
  - simpl. change (digit "8") with (Some D8). cbv iota beta. by rewrite IH.
  - simpl. change (digit "9") with (Some D9). cbv iota beta. by rewrite IH.
Qed.

Lemma number_decimal n rest :
  ends_number rest -> number (decimal n +:+ rest) = Some (n, rest).
Proof.
  intros Hrest. unfold number, decimal.
  pose proof (to_uint_nonnil n) as Hn.
  pose proof (DecimalN.Unsigned.of_to n) as Hof.
  assert (Hs : NilZero.string_of_uint (N.to_uint n)
               = NilEmpty.string_of_uint (N.to_uint n)).
  { by destruct (N.to_uint n). }
  rewrite Hs, digits_app by done.
  destruct (N.to_uint n); [done|..]; by rewrite Hof.
Qed.

Lemma cut_shape shape u rest :
  has_shape shape u = true -> cut (length shape) (u +:+ rest) = Some (u, rest).
Proof.
  revert u. induction shape as [|dash shape IH]; intros [|c u] H;
    simpl in H; try done.
  apply andb_true_iff in H as [_ H].
  rewrite app_cons. simpl. by rewrite (IH _ H).
Qed.

Lemma uuid_text u rest :
  is_uuid u = true -> uuid (text u +:+ rest) = Some (u, rest).
Proof.
  intros Hu. unfold uuid, text. rewrite !app_assoc, expect_app.
  rewrite (cut_shape _ _ _ Hu), Hu. by rewrite expect_app.
Qed.

(** Literal text that cannot continue a number, whatever follows it. *)
Lemma ends_number_app lit rest :
  match lit with String c _ => digit c = None | EmptyString => False end ->
  ends_number (lit +:+ rest).
Proof. by destruct lit. Qed.

Lemma item_encode it rest :
  valid_item it = true -> item (encode_item it +:+ rest) = Some (it, rest).
Proof.
  intros Hv. unfold item, encode_item. rewrite !app_assoc, expect_app.
  rewrite (uuid_text _ _ Hv), expect_app.
  rewrite number_decimal by (by apply ends_number_app).
  rewrite expect_app. by destruct it.
Qed.

Lemma encode_items_cons it its :
  its <> [] -> encode_items (it :: its) = encode_item it +:+ "," +:+ encode_items its.
Proof. by destruct its. Qed.

Lemma items_S fuel s :
  items (S fuel) s
  = match item s with
    | None => None
    | Some (it, rest) =>
        match expect "," rest with
        | None => Some ([it], rest)
        | Some rest' =>
            match items fuel rest' with
            | Some (its, rest'') => Some (it :: its, rest'')
            | None => None
            end
        end
    end.
Proof. reflexivity. Qed.

Lemma items_encode fuel its rest :
  its <> [] -> (length its <= fuel)%nat ->
  forallb valid_item its = true ->
  expect "," rest = None ->
  items fuel (encode_items its +:+ rest) = Some (its, rest).
Proof.
  revert fuel. induction its as [|it its IH]; [done|].
  intros [|fuel] _ Hlen [Hit Hits]%andb_true_iff Hrest; simpl in Hlen; [lia|].
  rewrite items_S. destruct its as [|it' its'].
  - simpl encode_items. by rewrite (item_encode _ _ Hit), Hrest.
  - rewrite encode_items_cons by done.
    rewrite !app_assoc, (item_encode _ _ Hit), expect_app.
    rewrite IH; [done|done|simpl in *; lia|done|done].
Qed.

Lemma encode_item_length it : (1 <= String.length (encode_item it))%nat.
Proof. unfold encode_item. rewrite length_app. simpl. lia. Qed.

Lemma encode_items_length its :
  (length its <= String.length (encode_items its))%nat.
Proof.
  induction its as [|it its IH]; [simpl; lia|].
  destruct its as [|it' its'].
  - simpl. apply encode_item_length.
  - rewrite encode_items_cons by done. rewrite !length_app.
    pose proof (encode_item_length it). simpl in *. lia.
Qed.

Lemma item_array_encode its rest :
  forallb valid_item its = true ->
  item_array ("[" +:+ encode_items its +:+ "]" +:+ rest) = Some (its, rest).
Proof.
  intros Hv. unfold item_array. rewrite expect_app.
  destruct its as [|it its'] eqn:Hits.
  - simpl encode_items. rewrite app_empty. by rewrite expect_app.
  - rewrite <- Hits in *.
    assert (Hne : its <> []) by (by rewrite Hits).
    assert (Hopen : expect "]" (encode_items its +:+ "]" +:+ rest) = None).
    { rewrite Hits. destruct its'; reflexivity. }
    rewrite Hopen, items_encode; [by rewrite expect_app|done| |done|done].
    rewrite length_app. pose proof (encode_items_length its). lia.
Qed.

Lemma time_encode t rest :
  ends_number rest -> time (encode_time t +:+ rest) = Some (t, rest).
Proof.
  intros Hrest. unfold time. destruct t as [ns|]; simpl encode_time.
  - assert (Hnull : expect "null" (decimal ns +:+ rest) = None).
    { unfold decimal. pose proof (to_uint_nonnil ns).
      by destruct (N.to_uint ns). }
    by rewrite Hnull, number_decimal.
  - by rewrite expect_app.
Qed.

Lemma order_Encode o :
  is_uuid (CustomerID o) = true ->
  forallb valid_item (LineItems o) = true ->
  order (Encode o) = Some (o, EmptyString).
Proof.
  intros Hc Hits. unfold order, Encode.
  rewrite expect_app.
  rewrite number_decimal by (by apply ends_number_app).
  rewrite expect_app, (uuid_text _ _ Hc), expect_app.
  rewrite (item_array_encode _ _ Hits), expect_app.
  rewrite time_encode by done.
  rewrite expect_same. by destruct o.
Qed.

End codec.

(** C8: for every valid Order [o], [Decode (Encode o) = o]. *)
Theorem Decode_Encode (o : model.Order) :
  model.valid o = true -> model.Decode (model.Encode o) = Ok o.
Proof.
  unfold model.valid. intros [[Hid Hc]%andb_true_iff Hits]%andb_true_iff.
  unfold model.Decode. rewrite codec.order_Encode by done. by rewrite Hid.
Qed.

(* ===================================================================== *)
(** * The theorems at concrete stores *)
(* ===================================================================== *)

(** Order 1 is stored; inserting another order 1 returns nil. *)
Lemma Insert_existing_key_witness :
  primary sample.store_1 "order:1" = Some (model.Encode sample.order_1) /\
  (Insert (M := spec_model) sample.order_1' (sample.up sample.store_1)).1
  = None /\
  Strings (server (Insert (M := spec_model) sample.order_1'
                     (sample.up sample.store_1)).2)
  = Strings sample.store_1.
Proof.
  split; [reflexivity|].
  destruct (Insert_existing_key_returns_nil (M := spec_model)
              sample.order_1' (model.Encode sample.order_1')
              (model.Encode sample.order_1) (sample.up sample.store_1))
    as (Hnil & Hsame & _); [reflexivity|reflexivity|reflexivity|].
  split; [exact Hnil|exact Hsame].
Defined.

(** Updating order 1 in the empty store returns nil. *)
Lemma Update_absent_key_witness :
  primary sample.empty_store "order:1" = None /\
  (Update (M := spec_model) sample.order_1 (sample.up sample.empty_store)).1
  = None /\
  server (Update (M := spec_model) sample.order_1
            (sample.up sample.empty_store)).2
  = sample.empty_store.
Proof.
  split; [reflexivity|].
  apply (Update_absent_key_returns_nil (M := spec_model) sample.order_1
           (model.Encode sample.order_1) (sample.up sample.empty_store));
    reflexivity.
Defined.

(** Deleting order 1 from the empty store returns nil. *)
Lemma DeleteByID_absent_key_witness :
  primary sample.empty_store "order:1" = None /\
  (DeleteByID 1 (sample.up sample.empty_store)).1 = None.
Proof.
  split; [reflexivity|].
  apply (DeleteByID_absent_key_returns_nil 1 (sample.up sample.empty_store));
    reflexivity.
Defined.

(** Order 1 is stored, indexed and decodes, and paging over the sparse
    table reports no order. *)
Lemma FindEvery_ends_at_empty_page_witness :
  "order:1" ∈ index sample.sparse_store_1 /\
  primary sample.sparse_store_1 "order:1"
  = Some (model.Encode sample.order_1) /\
  model.Decode (model.Encode sample.order_1) = Ok sample.order_1 /\
  sample.sparse {[ "order:1" ]} 0 10 = ([], 1%N) /\
  (FindEvery (M := spec_model) 5 10 0 (sample.up sample.sparse_store_1)).1
  = Return (Ok []).
Proof.
  split; [by vm_compute|]. split; [reflexivity|]. split; [reflexivity|].
  split; [reflexivity|].
  apply (FindEvery_ends_at_empty_page (M := spec_model) 4 10
           (sample.up sample.sparse_store_1) {[ "order:1" ]} 1);
    reflexivity.
Defined.

(** The index names order 1, no record exists, and listing panics. *)
Lemma FindAll_missing_record_witness :
  "order:1" ∈ index sample.dangling_store /\
  primary sample.dangling_store "order:1" = None /\
  (FindAll (M := spec_model) sample.page_10
     (sample.up sample.dangling_store)).1
  = Panic "interface conversion: interface {} is nil, not string".
Proof.
  split; [by vm_compute|]. split; [reflexivity|].
  apply (FindAll_missing_record_panics (M := spec_model) sample.page_10
           (sample.up sample.dangling_store) {[ "order:1" ]}
           [] "order:1" [] 0);
    [reflexivity|reflexivity|reflexivity|constructor|reflexivity].
Defined.

Lemma empty_store_consistent : consistent (M := spec_model) sample.empty_store.
Proof.
  split.
  - intros key v H. discriminate H.
  - intros key H. by apply not_elem_of_empty in H.
Qed.

(** Insert 1, update 1, insert 2, delete 1 on the empty store: four nils,
    and I1 at the end. *)
Lemma I1_after_successful_calls_witness :
  (perform_all sample.history (sample.up sample.empty_store)).1
  = [None; None; None; None] /\
  I1 (M := spec_model)
     (server (perform_all sample.history (sample.up sample.empty_store)).2).
Proof.
  split; [reflexivity|].
  apply (I1_after_successful_calls (M := spec_model) sample.history
           (sample.up sample.empty_store)).
  - exact empty_store_consistent.
  - repeat constructor; intros data [= <-]; eexists; reflexivity.
  - vm_compute. repeat constructor.
Defined.

(** The SADD of an insert times out: an error, a record, no index entry. *)
Lemma Insert_writes_before_commit_witness :
  (Insert (M := spec_model) sample.order_1
     (sample.second_fails sample.empty_store)).1
  = Some (wrapError "failed to add redis orderid set"
            (NetError "i/o timeout")) /\
  primary (server (Insert (M := spec_model) sample.order_1
                     (sample.second_fails sample.empty_store)).2) "order:1"
  = Some (model.Encode sample.order_1) /\
  index (server (Insert (M := spec_model) sample.order_1
                   (sample.second_fails sample.empty_store)).2)
  = ∅.
Proof.
  apply (Insert_writes_before_commit (M := spec_model) sample.order_1
           (model.Encode sample.order_1)
           (sample.second_fails sample.empty_store) "i/o timeout" []);
    reflexivity.
Defined.

Lemma Decode_Encode_witness :
  model.valid sample.order_1 = true /\
  model.Decode (model.Encode sample.order_1) = Ok sample.order_1.
Proof.
  split; [reflexivity|].
  apply (Decode_Encode sample.order_1). reflexivity.
Defined.

(** Order 1 is found, order 2 is not. *)
Lemma FindByID_spec_witness :
  (FindByID (M := spec_model) 1 (sample.up sample.store_1)).1
  = Ok sample.order_1 /\
  (FindByID (M := spec_model) 2 (sample.up sample.store_1)).1
  = Fail ErrNotExits.
Proof.
  split.
  - apply (FindByID_spec (M := spec_model) 1 (sample.up sample.store_1))
      with (v := model.Encode sample.order_1); reflexivity.
  - apply (FindByID_spec (M := spec_model) 2 (sample.up sample.store_1));
      reflexivity.
Defined.

(** One order stored: one page with it, cursor 0. *)
Lemma FindAll_page_witness :
  (FindAll (M := spec_model) sample.page_10 (sample.up sample.store_1)).1
  = Return (Ok (@Build_FindResults spec_model [sample.order_1] 0)).
Proof.
  apply (FindAll_page_in_scan_order (M := spec_model) sample.page_10
           (sample.up sample.store_1) {[ "order:1" ]} ["order:1"] 0);
    [reflexivity|reflexivity|reflexivity|discriminate|].
  constructor; [|constructor].
  exists (model.Encode sample.order_1). split; reflexivity.
Defined.

(* ===================================================================== *)
(** * More of the repository and of the handler *)
(* ===================================================================== *)

Lemma delivers_weaken n fs : delivers (S n) fs = true -> delivers n fs = true.
Proof.
  revert fs. induction n as [|n IH]; intros fs H; [done|].
  destruct fs as [|[msg|] rest]; simpl in *; try done. by apply IH.
Qed.

Lemma delivers_false_inv n fs :
  delivers (S n) fs = false ->
  (exists msg rest, fs = Some msg :: rest) \/
  (exists rest, fs = None :: rest /\ delivers n rest = false).
Proof.
  destruct fs as [|[msg|] rest]; simpl; intros H; try done.
  - left. eauto.
  - right. exists rest. split; [done|]. by destruct n.
Qed.

Section More.
Context {M : Model}.

(** ** When the mutating calls return nil *)

Lemma Insert_undelivered order data c :
  json_Marshal order = Ok data ->
  delivers 2 (faults c) = false ->
  exists msg, In (Some msg) (faults c) /\
    ((Insert order c).1
     = Some (wrapError "failed to set data in redis" (NetError msg)) \/
     (Insert order c).1
     = Some (wrapError "failed to add redis orderid set" (NetError msg))).
Proof.
  intros Hm Hd. unfold Insert. rewrite Hm. unfold bind, SetNX, SAdd.
  apply delivers_false_inv in Hd as [(msg & rest & Hf)|(rest & Hf & Hd)].
  - exists msg. split; [rewrite Hf; by left|]. left.
    by rewrite (process_failed _ _ _ _ _ _ Hf).
  - apply delivers_false_inv in Hd as [(msg & rest' & ->)|(rest' & -> & Hd)];
      [|done].
    exists msg. split; [rewrite Hf; right; by left|]. right.
    rewrite process_delivered, SETNX_no_error by (by rewrite Hf).
    rewrite Hf. simpl tail. by erewrite process_failed by done.
Qed.

(** X3: [Insert] returns nil exactly when [json.Marshal] accepts the order
    and both round trips (SETNX, SADD) are answered; what the store holds
    plays no part. *)
Theorem Insert_nil_iff order c :
  (Insert order c).1 = None
  <-> (exists data, json_Marshal order = Ok data)
      /\ delivers 2 (faults c) = true.
Proof.
  split.
  - intros Hnil. destruct (Insert_nil _ _ Hnil) as (data & Hm & _).
    split; [by exists data|].
    destruct (delivers 2 (faults c)) eqn:Hd; [done|].
    destruct (Insert_undelivered _ _ _ Hm Hd) as (msg & _ & [H|H]);
      rewrite H in Hnil; discriminate.
  - intros [(data & Hm) Hd]. by rewrite (Insert_delivered _ _ _ Hm Hd).
Qed.

Lemma Update_undelivered order data c :
  json_Marshal order = Ok data ->
  delivers 1 (faults c) = false ->
  exists msg, In (Some msg) (faults c) /\
    (Update order c).1
    = Some (wrapError "error updating order in redis" (NetError msg)).
Proof.
  intros Hm Hd. unfold Update. rewrite Hm. unfold bind, SetXX.
  apply delivers_false_inv in Hd as [(msg & rest & Hf)|(rest & Hf & Hd)];
    [|done].
  exists msg. split; [rewrite Hf; by left|].
  by rewrite (process_failed _ _ _ _ _ _ Hf).
Qed.

(** X4: [Update] returns nil exactly when [json.Marshal] accepts the order
    and the SET XX round trip is answered. *)
Theorem Update_nil_iff order c :
  (Update order c).1 = None
  <-> (exists data, json_Marshal order = Ok data)
      /\ delivers 1 (faults c) = true.
Proof.
  split.
  - intros Hnil. destruct (Update_nil _ _ Hnil) as (data & Hm & _).
    split; [by exists data|].
    destruct (delivers 1 (faults c)) eqn:Hd; [done|].
    destruct (Update_undelivered _ _ _ Hm Hd) as (msg & _ & H).
    rewrite H in Hnil. discriminate.
  - intros [(data & Hm) Hd]. by rewrite (Update_delivered _ _ _ Hm Hd).
Qed.

Lemma DeleteByID_undelivered id c :
  delivers 2 (faults c) = false ->
  exists msg, In (Some msg) (faults c) /\
    ((DeleteByID id c).1
     = Some (wrapError "error delete order from redis" (NetError msg)) \/
     (DeleteByID id c).1
     = Some (wrapError "error deleting orderid from set" (NetError msg))).
Proof.
  intros Hd. unfold DeleteByID, bind, Del, SRem.
  apply delivers_false_inv in Hd as [(msg & rest & Hf)|(rest & Hf & Hd)].
  - exists msg. split; [rewrite Hf; by left|]. left.
    by rewrite (process_failed _ _ _ _ _ _ Hf).
  - apply delivers_false_inv in Hd as [(msg & rest' & ->)|(rest' & -> & Hd)];
      [|done].
    exists msg. split; [rewrite Hf; right; by left|]. right.
    rewrite process_delivered, DEL_no_error by (by rewrite Hf).
    cbn [errors_Is]. cbv beta iota.
    rewrite Hf. simpl tail. by erewrite process_failed by done.
Qed.

(** X5: [DeleteByID] returns nil exactly when both round trips (DEL, SREM)
    are answered. *)
Theorem DeleteByID_nil_iff id c :
  (DeleteByID id c).1 = None <-> delivers 2 (faults c) = true.
Proof.
  split.
  - intros Hnil. destruct (delivers 2 (faults c)) eqn:Hd; [done|].
    destruct (DeleteByID_undelivered id c Hd) as (msg & _ & [H|H]);
      rewrite H in Hnil; discriminate.
  - intros Hd. by rewrite (DeleteByID_delivered _ _ Hd).
Qed.

(** ** Errors keep their cause *)

Lemma chain_has_refl e : chain_has e e = true.
Proof. destruct e; simpl; by destruct (decide _). Qed.

Lemma chain_has_wrap target msg e :
  chain_has target e = true -> chain_has target (wrapError msg e) = true.
Proof. intros H. simpl. by destruct (decide _). Qed.

(** X6: an error returned by [Insert], [Update] or [DeleteByID] wraps its
    cause, so [errors.Is] finds it: the error of [json.Marshal], or the
    error of a round trip that failed. *)
Theorem perform_error_has_cause op c e :
  (perform op c).1 = Some e ->
  (exists err, marshal_failure op err /\ errors_Is (Some e) err = true) \/
  (exists msg, In (Some msg) (faults c) /\
               errors_Is (Some e) (NetError msg) = true).
Proof.
  destruct op as [order|order|id]; simpl; intros He.
  - destruct (json_Marshal order) as [data|err] eqn:Hm.
    + right. destruct (delivers 2 (faults c)) eqn:Hd.
      { rewrite (Insert_delivered _ _ _ Hm Hd) in He. discriminate. }
      destruct (Insert_undelivered _ _ _ Hm Hd) as (msg & Hin & [H|H]);
        rewrite H in He; injection He as <-; exists msg; split; try done;
        apply chain_has_wrap, chain_has_refl.
    + left. exists err. split; [done|]. unfold Insert in He. rewrite Hm in He.
      injection He as <-. apply chain_has_wrap, chain_has_refl.
  - destruct (json_Marshal order) as [data|err] eqn:Hm.
    + right. destruct (delivers 1 (faults c)) eqn:Hd.
      { rewrite (Update_delivered _ _ _ Hm Hd) in He. discriminate. }
      destruct (Update_undelivered _ _ _ Hm Hd) as (msg & Hin & H).
      rewrite H in He. injection He as <-. exists msg. split; [done|].
      apply chain_has_wrap, chain_has_refl.
    + left. exists err. split; [done|]. unfold Update in He. rewrite Hm in He.
      injection He as <-. apply chain_has_wrap, chain_has_refl.
  - right. destruct (delivers 2 (faults c)) eqn:Hd.
    { rewrite (DeleteByID_delivered _ _ Hd) in He. discriminate. }
    destruct (DeleteByID_undelivered id c Hd) as (msg & Hin & [H|H]);
      rewrite H in He; injection He as <-; exists msg; split; try done;
      apply chain_has_wrap, chain_has_refl.
Qed.

(** ** Write, then read *)

(** X7: when the key is free and the server answers, [Insert] returns
    nil, the key is in the index, and [FindByID] on the same id returns
    the order that the written text decodes to. *)
Theorem Insert_then_FindByID order data stored c :
  json_Marshal order = Ok data ->
  json_Unmarshal data = Ok stored ->
  primary (server c) (OrderIdKey (OrderID order)) = None ->
  delivers 3 (faults c) = true ->
  (Insert order c).1 = None /\
  OrderIdKey (OrderID order) ∈ index (server (Insert order c).2) /\
  (FindByID (OrderID order) (Insert order c).2).1 = Ok stored.
Proof.
  intros Hm Hu Hfresh Hd.
  pose proof (delivers_weaken _ _ Hd) as Hd2.
  apply delivers_S in Hd as [_ [_ Hd1]%delivers_S].
  rewrite (Insert_delivered _ _ _ Hm Hd2). cbn [fst snd].
  split; [done|]. split.
  - cbn [server]. unfold after_Insert. rewrite index_SADD.
    apply elem_of_union_l. by apply elem_of_singleton.
  - rewrite FindByID_delivered by done. cbn [server]. unfold after_Insert.
    unfold primary at 1. rewrite Strings_SADD.
    fold (primary (serve (SETNX (OrderIdKey (OrderID order)) data) (server c)).2
            (OrderIdKey (OrderID order))).
    rewrite primary_SETNX, Hfresh.
    destruct (decide _); [|done]. by rewrite Hu.
Qed.

(** X8: when the key holds a record and the server answers, [Update]
    returns nil, leaves every set as it was, and [FindByID] on the same id
    returns the order that the new text decodes to. *)
Theorem Update_then_FindByID order data stored old c :
  json_Marshal order = Ok data ->
  json_Unmarshal data = Ok stored ->
  primary (server c) (OrderIdKey (OrderID order)) = Some old ->
  delivers 2 (faults c) = true ->
  (Update order c).1 = None /\
  Sets (server (Update order c).2) = Sets (server c) /\
  (FindByID (OrderID order) (Update order c).2).1 = Ok stored.
Proof.
  intros Hm Hu Hold Hd.
  pose proof (delivers_weaken _ _ Hd) as Hd1.
  apply delivers_S in Hd as [_ Hd'].
  rewrite (Update_delivered _ _ _ Hm Hd1). cbn [fst snd server].
  split; [done|]. split; [apply Sets_SET_XX|].
  rewrite FindByID_delivered by done. cbn [server].
  rewrite primary_SET_XX, Hold. destruct (decide _); [|done]. by rewrite Hu.
Qed.

(** X9: when the server answers, after [DeleteByID] the key is not in the
    index and [FindByID] on the same id returns [ErrNotExits]. *)
Theorem DeleteByID_then_FindByID id c :
  delivers 3 (faults c) = true ->
  (DeleteByID id c).1 = None /\
  (OrderIdKey id ∉ index (server (DeleteByID id c).2)) /\
  (FindByID (M := M) id (DeleteByID id c).2).1 = Fail ErrNotExits.
Proof.
  intros Hd.
  pose proof (delivers_weaken _ _ Hd) as Hd2.
  apply delivers_S in Hd as [_ [_ Hd1]%delivers_S].
  rewrite (DeleteByID_delivered _ _ Hd2). cbn [fst snd].
  split; [done|]. split.
  - cbn [server]. unfold after_DeleteByID. rewrite index_SREM.
    intros [_ Hne]%elem_of_difference. apply Hne. by apply elem_of_singleton.
  - rewrite FindByID_delivered by done. cbn [server]. unfold after_DeleteByID.
    unfold primary. rewrite Strings_SREM.
    fold (primary (serve (DEL (OrderIdKey id)) (server c)).2 (OrderIdKey id)).
    rewrite primary_DEL. by destruct (decide _).
Qed.

(** ** Other orders are left alone *)

Lemma Insert_server_cases order c :
  server (Insert order c).2 = server c \/
  (exists data,
     server (Insert order c).2
     = (serve (SETNX (OrderIdKey (OrderID order)) data) (server c)).2) \/
  (exists data,
     server (Insert order c).2
     = after_Insert (OrderIdKey (OrderID order)) data (server c)).
Proof.
  unfold Insert. destruct (json_Marshal order) as [data|err]; [|by left].
  unfold bind, SetNX, SAdd.
  destruct (faults c) as [|[msg|] rest] eqn:Hf.
  - right. right. exists data.
    rewrite process_delivered, SETNX_no_error by (by rewrite Hf).
    by rewrite process_delivered, SADD_no_error by (by simpl; rewrite Hf).
  - left. by rewrite (process_failed _ _ _ _ _ _ Hf).
  - rewrite process_delivered, SETNX_no_error by (by rewrite Hf).
    rewrite Hf. simpl tail. destruct rest as [|[msg|] rest'].
    + right. right. exists data.
      by rewrite process_delivered, SADD_no_error by done.
    + right. left. exists data. by erewrite process_failed by done.
    + right. right. exists data.
      by rewrite process_delivered, SADD_no_error by done.
Qed.

Lemma Update_server_cases order c :
  server (Update order c).2 = server c \/
  (exists data,
     server (Update order c).2
     = (serve (SET_XX (OrderIdKey (OrderID order)) data) (server c)).2).
Proof.
  unfold Update. destruct (json_Marshal order) as [data|err]; [|by left].
  unfold bind, SetXX.
  destruct (faults c) as [|[msg|] rest] eqn:Hf.
  - right. exists data.
    by rewrite process_delivered, SET_XX_no_error by (by rewrite Hf).
  - left. by rewrite (process_failed _ _ _ _ _ _ Hf).
  - right. exists data.
    by rewrite process_delivered, SET_XX_no_error by (by rewrite Hf).
Qed.

Lemma DeleteByID_server_cases id c :
  server (DeleteByID id c).2 = server c \/
  server (DeleteByID id c).2 = (serve (DEL (OrderIdKey id)) (server c)).2 \/
  server (DeleteByID id c).2 = after_DeleteByID (OrderIdKey id) (server c).
Proof.
  unfold DeleteByID, bind, Del, SRem.
  destruct (faults c) as [|[msg|] rest] eqn:Hf.
  - right. right.
    rewrite process_delivered, DEL_no_error by (by rewrite Hf).
    cbn [errors_Is]. cbv beta iota.
    by rewrite process_delivered, SREM_no_error by (by simpl; rewrite Hf).
  - left. by rewrite (process_failed _ _ _ _ _ _ Hf).
  - rewrite process_delivered, DEL_no_error by (by rewrite Hf).
    cbn [errors_Is]. cbv beta iota. rewrite Hf. simpl tail.
    destruct rest as [|[msg|] rest'].
    + right. right. by rewrite process_delivered, SREM_no_error by done.
    + right. left. by erewrite process_failed by done.
    + right. right. by rewrite process_delivered, SREM_no_error by done.
Qed.

Lemma frame_SETNX s key data k :
  k <> key ->
  primary (serve (SETNX key data) s).2 k = primary s k /\
  index (serve (SETNX key data) s).2 = index s.
Proof.
  intros Hne. split.
  - rewrite primary_SETNX. destruct (primary s key); [done|].
    by destruct (decide (key = k)).
  - unfold index. by rewrite Sets_SETNX.
Qed.

Lemma frame_SADD s key k :
  k <> key ->
  primary (serve (SADD "orders" key) s).2 k = primary s k /\
  (k ∈ index (serve (SADD "orders" key) s).2 <-> k ∈ index s).
Proof.
  intros Hne. split.
  - unfold primary. by rewrite Strings_SADD.
  - rewrite index_SADD, elem_of_union, elem_of_singleton. tauto.
Qed.

Lemma frame_DEL s key k :
  k <> key ->
  primary (serve (DEL key) s).2 k = primary s k /\
  index (serve (DEL key) s).2 = index s.
Proof.
  intros Hne. split.
  - rewrite primary_DEL. by destruct (decide (key = k)).
  - unfold index. by rewrite Sets_DEL.
Qed.

Lemma frame_SREM s key k :
  k <> key ->
  primary (serve (SREM "orders" key) s).2 k = primary s k /\
  (k ∈ index (serve (SREM "orders" key) s).2 <-> k ∈ index s).
Proof.
  intros Hne. split.
  - unfold primary. by rewrite Strings_SREM.
  - rewrite index_SREM, elem_of_difference, elem_of_singleton. tauto.
Qed.

(** X10: whatever the connection does, a call of [Insert], [Update] or
    [DeleteByID] changes neither the record nor the index membership of any
    key other than its own. *)
Theorem perform_leaves_other_orders op c k :
  k <> call_key op ->
  primary (server (perform op c).2) k = primary (server c) k /\
  (k ∈ index (server (perform op c).2) <-> k ∈ index (server c)).
Proof.
  intros Hne. destruct op as [order|order|id]; simpl in *.
  - destruct (Insert_server_cases order c)
      as [->|[(data & ->)|(data & ->)]]; [done| |].
    + destruct (frame_SETNX (server c) _ data k Hne) as [-> ->]. done.
    + unfold after_Insert.
      destruct (frame_SADD (serve (SETNX (OrderIdKey (OrderID order)) data)
                              (server c)).2 _ k Hne) as [-> ->].
      destruct (frame_SETNX (server c) _ data k Hne) as [-> ->]. done.
  - destruct (Update_server_cases order c) as [->|(data & ->)]; [done|].
    split.
    + rewrite primary_SET_XX. destruct (primary (server c) _); [|done].
      by destruct (decide (OrderIdKey (OrderID order) = k)).
    + unfold index. by rewrite Sets_SET_XX.
  - destruct (DeleteByID_server_cases id c) as [->|[->| ->]]; [done| |].
    + destruct (frame_DEL (server c) _ k Hne) as [-> ->]. done.
    + unfold after_DeleteByID.
      destruct (frame_SREM (serve (DEL (OrderIdKey id)) (server c)).2 _ k Hne)
        as [-> ->].
      destruct (frame_DEL (server c) _ k Hne) as [-> ->]. done.
Qed.

(** ** FindByID and FindAll: failures and soundness *)

(** X11: [FindByID] reports a failed GET as the wrapped transport error
    (never as [ErrNotExits]), and a record that does not decode as the
    wrapped decode error. *)
Theorem FindByID_failures id c :
  (forall msg rest,
     faults c = Some msg :: rest ->
     (FindByID id c).1 = Fail (wrapError "redis get error" (NetError msg))) /\
  (forall v err,
     delivers 1 (faults c) = true ->
     primary (server c) (OrderIdKey id) = Some v ->
     json_Unmarshal v = Fail err ->
     (FindByID id c).1
     = Fail (wrapError "failed to decode order json" err)).
Proof.
  split.
  - intros msg rest Hf. unfold FindByID, bind, Get.
    by rewrite (process_failed _ _ _ _ _ _ Hf).
  - intros v err Hd Hv Herr. by rewrite FindByID_delivered, Hv, Herr.
Qed.

Lemma serve_SSCAN_server key cursor count s :
  (serve (SSCAN key cursor count) s).2 = s.
Proof.
  simpl. destruct (Sets s !! key); [|done]. by destruct (Iterate s _ _ _).
Qed.

Lemma process_read_server {A} (zero : A) read cmd c :
  (forall s, (serve cmd s).2 = s) ->
  server (process zero read cmd c).2 = server c.
Proof.
  intros Hread. unfold process, bind, roundTrip.
  destruct (faults c) as [|[msg|] rest]; simpl; try done;
    destruct (serve cmd (server c)) as [r s'] eqn:Hs; simpl;
    by rewrite <- (Hread (server c)), Hs.
Qed.

(** X12: [FindAll] never changes the server, whatever it returns. *)
Theorem FindAll_server page c : server (FindAll page c).2 = server c.
Proof.
  unfold FindAll, bind.
  pose proof (process_read_server ([], 0%N) readScan
                (SSCAN "orders" (Offset page)
                   (sent_count (int64_of_uint64 (Size page)))) c
                (serve_SSCAN_server _ _ _)) as Hscan.
  unfold SScan. destruct (process _ readScan _ c) as [res c1].
  simpl in Hscan. destruct (Val res) as [keys cursor].
  destruct (Err res); [done|]. destruct (decide _); [done|].
  pose proof (process_read_server [] readSlice (MGET keys) c1
                (fun s => eq_refl)) as Hget.
  unfold MGet. destruct (process _ readSlice _ c1) as [xs c2].
  simpl in Hget. destruct (Err xs); simpl; congruence.
Qed.

Lemma decode_rows_Ok_inv s keys orders :
  decode_rows (map (primary s) keys) = Return (Ok orders) ->
  Forall2 (fun key order =>
             exists v, primary s key = Some v /\ json_Unmarshal v = Ok order)
          keys orders.
Proof.
  revert orders. induction keys as [|key keys IH]; intros orders; simpl.
  - intros [= <-]. constructor.
  - destruct (primary s key) as [v|] eqn:Hv; [|done].
    destruct (json_Unmarshal v) as [order|err] eqn:Ho; [|done].
    destruct (decode_rows (map (primary s) keys)) as [[rest|err]|msg];
      [|done|done].
    intros [= <-]. constructor; [by exists v|by apply IH].
Qed.

(** X13: a page that [FindAll] returns without error is empty with cursor
    0, or holds, in the order of the scanned keys, the decoding of the
    record of each key, with the cursor of the scan step. *)
Theorem FindAll_Ok_sound page c res :
  (FindAll page c).1 = Return (Ok res) ->
  (Orders res = [] /\ Cursor res = 0%N) \/
  (exists members keys,
     Sets (server c) !! "orders" = Some members /\
     Iterate (server c) members (Offset page) (page_count page)
     = (keys, Cursor res) /\
     Forall2 (fun key order =>
                exists v, primary (server c) key = Some v /\
                          json_Unmarshal v = Ok order)
             keys (Orders res)).
Proof.
  intros Hres.
  destruct (delivers 1 (faults c)) eqn:Hd1; cycle 1.
  { apply delivers_false_inv in Hd1 as [(msg & rest & Hf)|(rest & _ & ?)];
      [|done].
    revert Hres. unfold FindAll, bind, SScan.
    by rewrite (process_failed _ _ _ _ _ _ Hf). }
  destruct (Sets (server c) !! "orders") as [members|] eqn:Hset; cycle 1.
  { left. revert Hres. unfold FindAll, bind, SScan.
    rewrite process_delivered by done. simpl. rewrite Hset. simpl.
    by intros [= <-]. }
  destruct (Iterate (server c) members (Offset page) (page_count page))
    as [keys next] eqn:Hscan.
  destruct keys as [|key keys].
  { left. rewrite (FindAll_empty_page _ _ _ _ Hd1 Hset Hscan) in Hres.
    by injection Hres as <-. }
  destruct (delivers 2 (faults c)) eqn:Hd2; cycle 1.
  { apply delivers_false_inv in Hd2 as [(msg & rest & Hf)|(rest & Hf & Hd2)];
      [by rewrite Hf in Hd1|].
    apply delivers_false_inv in Hd2 as [(msg & rest' & ->)|(? & _ & ?)];
      [|done].
    revert Hres. unfold FindAll, bind, SScan, MGet.
    rewrite process_delivered by done. simpl.
    unfold page_count in Hscan. rewrite Hset, Hscan. simpl.
    rewrite Hf. simpl. done. }
  right. exists members, (key :: keys).
  rewrite (FindAll_scanned _ _ _ _ _ Hd2 Hset Hscan) in Hres by done.
  destruct (decode_rows (map (primary (server c)) (key :: keys)))
    as [[orders|err]|msg] eqn:Hrows; [|done|done].
  injection Hres as <-. simpl. split; [done|]. split; [done|].
  by apply decode_rows_Ok_inv.
Qed.

(** X15: when the set [orders] does not exist and the scan is answered,
    [FindAll] returns the empty page with cursor 0 after that one round
    trip; no MGET is sent. *)
Theorem FindAll_without_index page c :
  Sets (server c) !! "orders" = None ->
  delivers 1 (faults c) = true ->
  FindAll page c
  = (Return (Ok {| Orders := []; Cursor := 0 |}),
     {| server := server c; faults := tail (faults c) |}).
Proof.
  intros Hset Hd. unfold FindAll, bind, SScan.
  rewrite process_delivered by done. simpl. by rewrite Hset.
Qed.

(** X16: the count that reaches the server is the page size when
    [0 < Size < 2^63]; for size 0, and for a size of [2^63] or more (which
    [int64(page.Size)] turns negative), no count is sent and the server
    uses 10. *)
Theorem page_count_bounds page :
  (Size page < 2 ^ 64)%N ->
  page_count page
  = if ((0 <? Size page) && (Size page <? 2 ^ 63))%N
    then Z.of_N (Size page) else 10%Z.
Proof.
  intros Hsize. unfold page_count, sent_count, int64_of_uint64.
  assert (H64 : (Z.of_N (Size page) < 2 ^ 64)%Z).
  { change (2 ^ 64)%Z with (Z.of_N (2 ^ 64)). lia. }
  rewrite Z.mod_small by lia. cbv zeta.
  destruct (0 <? Size page)%N eqn:Hpos; simpl.
  - apply N.ltb_lt in Hpos.
    destruct (Size page <? 2 ^ 63)%N eqn:Hsmall.
    + apply N.ltb_lt in Hsmall.
      assert (Z.of_N (Size page) < 2 ^ 63)%Z
        by (change (2 ^ 63)%Z with (Z.of_N (2 ^ 63)); lia).
      destruct (Z.ltb_spec (Z.of_N (Size page)) (2 ^ 63)); [|lia].
      destruct (Z.ltb_spec 0 (Z.of_N (Size page))); [done|lia].
    + apply N.ltb_ge in Hsmall.
      assert (2 ^ 63 <= Z.of_N (Size page))%Z
        by (change (2 ^ 63)%Z with (Z.of_N (2 ^ 63)); lia).
      destruct (Z.ltb_spec (Z.of_N (Size page)) (2 ^ 63)); [lia|].
      destruct (Z.ltb_spec 0 (Z.of_N (Size page) - 2 ^ 64)); [lia|done].
  - apply N.ltb_ge in Hpos. assert (Size page = 0%N) as -> by lia. done.
Qed.

(** X17: when DEL is answered and SREM fails, [DeleteByID] returns the
    wrapped error of SREM and the index still names the key of the record
    it has deleted: I1 does not hold afterwards. *)
Theorem DeleteByID_failure_leaves_dangling_entry id v c msg rest :
  primary (server c) (OrderIdKey id) = Some v ->
  OrderIdKey id ∈ index (server c) ->
  faults c = None :: Some msg :: rest ->
  (DeleteByID id c).1
  = Some (wrapError "error deleting orderid from set" (NetError msg)) /\
  ~ I1 (M := M) (server (DeleteByID id c).2).
Proof.
  intros Hv Hin Hf.
  destruct (DeleteByID_deletes_before_commit id v c msg rest Hv Hf)
    as (Herr & Hgone & Hindex).
  split; [done|]. intros HI1.
  destruct (HI1 (OrderIdKey id)) as (v' & Hv' & _); [by rewrite Hindex|].
  congruence.
Qed.

End More.

(** ** The Create endpoint *)

Section CreateFacts.
Context {M : Model}.
Variables (Payload Time : Type).
Variable newOrder : N -> Payload -> Time -> Order.

(** X18: [Create] answers 400 with the decoder's text for a body that
    does not decode; 500 with no body when [json.Marshal] refuses the order
    or a round trip of [Insert] fails; and otherwise 200 with the order's
    JSON: the body is written first, so the later
    [WriteHeader(http.StatusCreated)] changes nothing. *)
Theorem Create_response req now id c :
  let w := (Create newOrder req now id http.fresh c).1 in
  match req with
  | Malformed text =>
      w = {| http.Status := Some http.StatusBadRequest; http.Body := text |}
  | Decoded body =>
      match json_Marshal (newOrder id body now) with
      | Ok data =>
          if delivers 2 (faults c) then
            w = {| http.Status := Some http.StatusOK; http.Body := data |}
          else
            w = {| http.Status := Some http.StatusInternalServerError;
                   http.Body := EmptyString |}
      | Fail _ =>
          w = {| http.Status := Some http.StatusInternalServerError;
                 http.Body := EmptyString |}
      end
  end.
Proof.
  cbv zeta. destruct req as [text|body]; [reflexivity|].
  unfold Create, bind. cbv zeta.
  destruct (json_Marshal (newOrder id body now)) as [data|err] eqn:Hm.
  - destruct (delivers 2 (faults c)) eqn:Hd.
    + by rewrite (Insert_delivered _ _ _ Hm Hd).
    + destruct (Insert_undelivered _ _ _ Hm Hd) as (msg & _ & [H|H]);
        destruct (Insert (newOrder id body now) c) as [err c1];
        simpl in H; by rewrite H.
  - unfold Insert. by rewrite Hm.
Qed.

(** X19: when the id drawn for a new order is taken and the server
    answers, [Create] answers 200 with the new order's JSON and the store
    keeps the old record. *)
Theorem Create_on_taken_id body now id data old c :
  json_Marshal (newOrder id body now) = Ok data ->
  primary (server c) (OrderIdKey (OrderID (newOrder id body now))) = Some old ->
  delivers 2 (faults c) = true ->
  (Create newOrder (Decoded body) now id http.fresh c).1
  = {| http.Status := Some http.StatusOK; http.Body := data |} /\
  primary (server (Create newOrder (Decoded body) now id http.fresh c).2)
          (OrderIdKey (OrderID (newOrder id body now)))
  = Some old.
Proof.
  intros Hm Hold Hd. unfold Create, bind. cbv zeta.
  rewrite (Insert_delivered _ _ _ Hm Hd), Hm. cbn [fst snd server ret].
  split; [done|].
  unfold after_Insert. unfold primary at 1. rewrite Strings_SADD.
  fold (primary (serve (SETNX (OrderIdKey (OrderID (newOrder id body now)))
                          data) (server c)).2
          (OrderIdKey (OrderID (newOrder id body now)))).
  by rewrite primary_SETNX, Hold.
Qed.

End CreateFacts.

(* ===================================================================== *)
(** * These theorems at concrete stores *)
(* ===================================================================== *)

Lemma OrderIdKey_inj_witness : 7%N = 7%N.
Proof. apply (OrderIdKey_inj 7 7). reflexivity. Defined.

Lemma perform_error_has_cause_witness :
  (perform (CallInsert (M := spec_model) sample.order_1)
     (scenario.first_fails sample.empty_store)).1
  = Some (wrapError "failed to set data in redis"
            (NetError "connection refused")) /\
  errors_Is (Some (wrapError "failed to set data in redis"
                     (NetError "connection refused")))
            (NetError "connection refused") = true /\
  ((exists err,
      marshal_failure (CallInsert (M := spec_model) sample.order_1) err /\
      errors_Is (Some (wrapError "failed to set data in redis"
                         (NetError "connection refused"))) err = true) \/
   (exists msg,
      In (Some msg) (faults (scenario.first_fails sample.empty_store)) /\
      errors_Is (Some (wrapError "failed to set data in redis"
                         (NetError "connection refused")))
                (NetError msg) = true)).
Proof.
  split; [reflexivity|]. split; [reflexivity|].
  apply (perform_error_has_cause (M := spec_model)
           (CallInsert (M := spec_model) sample.order_1)
           (scenario.first_fails sample.empty_store)).
  reflexivity.
Defined.

Lemma Insert_then_FindByID_witness :
  (FindByID (M := spec_model) 1
     (Insert (M := spec_model) sample.order_1
        (sample.up sample.empty_store)).2).1
  = Ok sample.order_1.
Proof.
  apply (Insert_then_FindByID (M := spec_model) sample.order_1
           (model.Encode sample.order_1) sample.order_1
           (sample.up sample.empty_store)); reflexivity.
Defined.

Lemma Update_then_FindByID_witness :
  (FindByID (M := spec_model) 1 (sample.up sample.store_1)).1
  = Ok sample.order_1 /\
  (FindByID (M := spec_model) 1
     (Update (M := spec_model) sample.order_1'
        (sample.up sample.store_1)).2).1
  = Ok sample.order_1'.
Proof.
  split; [reflexivity|].
  apply (Update_then_FindByID (M := spec_model) sample.order_1'
           (model.Encode sample.order_1') sample.order_1'
           (model.Encode sample.order_1) (sample.up sample.store_1));
    reflexivity.
Defined.

Lemma DeleteByID_then_FindByID_witness :
  (FindByID (M := spec_model) 1
     (DeleteByID 1 (sample.up sample.store_1)).2).1
  = Fail ErrNotExits.
Proof.
  apply (DeleteByID_then_FindByID (M := spec_model) 1
           (sample.up sample.store_1)). reflexivity.
Defined.

Lemma perform_leaves_other_orders_witness :
  primary (server (perform (CallDeleteByID (M := spec_model) 2)
                     (sample.up sample.store_1)).2) "order:1"
  = Some (model.Encode sample.order_1).
Proof.
  destruct (perform_leaves_other_orders (M := spec_model)
              (CallDeleteByID (M := spec_model) 2)
              (sample.up sample.store_1) "order:1") as [Hsame _].
  - discriminate.
  - rewrite Hsame. reflexivity.
Defined.

Lemma FindAll_Ok_sound_witness :
  (FindAll (M := spec_model) sample.page_10 (sample.up sample.store_1)).1
  = Return (Ok (@Build_FindResults spec_model [sample.order_1] 0)) /\
  ((@Orders spec_model (@Build_FindResults spec_model [sample.order_1] 0) = []
    /\ @Cursor spec_model (@Build_FindResults spec_model [sample.order_1] 0)
       = 0%N) \/
   (exists members keys,
      Sets sample.store_1 !! "orders" = Some members /\
      Iterate sample.store_1 members 0 (page_count sample.page_10)
      = (keys, 0%N) /\
      Forall2 (fun key order =>
                 exists v, primary sample.store_1 key = Some v /\
                           model.Decode v = Ok order)
              keys [sample.order_1])).
Proof.
  split; [reflexivity|].
  apply (FindAll_Ok_sound (M := spec_model) sample.page_10
           (sample.up sample.store_1)
           (@Build_FindResults spec_model [sample.order_1] 0)).
  reflexivity.
Defined.

Lemma FindAll_without_index_witness :
  (FindAll (M := spec_model) sample.page_10
     (sample.up sample.empty_store)).1
  = Return (Ok (@Build_FindResults spec_model [] 0)).
Proof.
  rewrite (FindAll_without_index (M := spec_model) sample.page_10
             (sample.up sample.empty_store)); reflexivity.
Defined.

Lemma page_count_bounds_witness :
  page_count {| Size := 2 ^ 63; Offset := 0 |} = 10%Z /\
  page_count {| Size := 25; Offset := 0 |} = 25%Z.
Proof.
  split.
  - rewrite (page_count_bounds {| Size := 2 ^ 63; Offset := 0 |});
      reflexivity.
  - rewrite (page_count_bounds {| Size := 25; Offset := 0 |}); reflexivity.
Defined.

Lemma DeleteByID_failure_witness :
  "order:1" ∈ index sample.store_1 /\
  ~ I1 (M := spec_model)
      (server (DeleteByID 1 (sample.second_fails sample.store_1)).2).
Proof.
  split; [by vm_compute|].
  apply (DeleteByID_failure_leaves_dangling_entry (M := spec_model) 1
           (model.Encode sample.order_1) (sample.second_fails sample.store_1)
           "i/o timeout" []); [reflexivity|by vm_compute|reflexivity].
Defined.

Lemma FindByID_failures_witness :
  (FindByID (M := spec_model) 1 (scenario.first_fails sample.store_1)).1
  = Fail (wrapError "redis get error" (NetError "connection refused")) /\
  (FindByID (M := spec_model) 1 (sample.up scenario.garbled_store)).1
  = Fail (wrapError "failed to decode order json" model.CorruptRecord).
Proof.
  split.
  - apply (FindByID_failures (M := spec_model) 1
             (scenario.first_fails sample.store_1)) with (rest := []).
    reflexivity.
  - apply (FindByID_failures (M := spec_model) 1
             (sample.up scenario.garbled_store)) with (v := "not json");
      reflexivity.
Defined.

Lemma FindAll_invalid_record_witness :
  (FindAll (M := spec_model) sample.page_10
     (sample.up scenario.garbled_store)).1
  = Return (Fail (wrapError "error decoding order" model.CorruptRecord)).
Proof.
  apply (FindAll_invalid_record_fails (M := spec_model) sample.page_10
           (sample.up scenario.garbled_store) {[ "order:1" ]}
           [] "order:1" [] 0 "not json" model.CorruptRecord);
    [reflexivity|reflexivity|reflexivity|constructor|reflexivity|reflexivity].
Defined.

Lemma Create_on_taken_id_witness :
  primary sample.store_1 "order:1" = Some (model.Encode sample.order_1) /\
  (Create (M := spec_model) scenario.newOrder
     (Decoded scenario.body_1) scenario.noon 1 http.fresh
     (sample.up sample.store_1)).1
  = {| http.Status := Some 200%N;
       http.Body := model.Encode sample.order_1' |} /\
  primary (server (Create (M := spec_model) scenario.newOrder
                     (Decoded scenario.body_1) scenario.noon 1 http.fresh
                     (sample.up sample.store_1)).2) "order:1"
  = Some (model.Encode sample.order_1).
Proof.
  split; [reflexivity|].
  apply (Create_on_taken_id (M := spec_model) _ _ scenario.newOrder
           scenario.body_1 scenario.noon 1
           (model.Encode sample.order_1') (model.Encode sample.order_1)
           (sample.up sample.store_1)); reflexivity.
Defined.
